(** * Barrister2 / PulseRPC Python runtime: schema resolver and validator

    A shallow embedding of [barrister2/types.py] (struct lookup and the
    flattening of [extends] chains) and of [pulserpc/validation.py] (the
    recursive validator over decoded JSON values), together with the
    properties of both that the design document states. *)

From Stdlib Require Import SpecFloat.
From stdpp Require Import gmap strings list fin_maps.

Set Warnings "-register-all,-clear-no-such-hyp".

Local Open Scope string_scope.
Local Open Scope list_scope.

(** ** Decoded values

    The validator receives whatever the JSON decoder (or a caller) hands it:
    [None], booleans, integers, floats, strings, lists and dicts.  A dict is
    kept as its items in insertion order; its keys are any hashable scalar,
    since the map validator has to inspect them. *)

Inductive key : Type :=
  | KNone
  | KBool (b : bool)
  | KInt (z : Z)
  | KFloat (x : spec_float)
  | KStr (s : string).

Inductive value : Type :=
  | VNone
  | VBool (b : bool)
  | VInt (z : Z)
  | VFloat (x : spec_float)
  | VStr (s : string)
  | VList (elems : list value)
  | VDict (items : list (key * value)).

(** [type(value).__name__] *)
Definition type_name (v : value) : string :=
  match v with
  | VNone => "NoneType"
  | VBool _ => "bool"
  | VInt _ => "int"
  | VFloat _ => "float"
  | VStr _ => "str"
  | VList _ => "list"
  | VDict _ => "dict"
  end.

Definition key_type_name (k : key) : string :=
  match k with
  | KNone => "NoneType"
  | KBool _ => "bool"
  | KInt _ => "int"
  | KFloat _ => "float"
  | KStr _ => "str"
  end.

(** [isinstance(value, cls)] for the classes the validators probe.  [bool] is
    a subclass of [int] in the host language, so a boolean is an instance of
    [int] as well. *)
Inductive pyclass : Type := Cstr | Cint | Cfloat | Cbool | Clist | Cdict.

Definition isinstance (v : value) (c : pyclass) : bool :=
  match c, v with
  | Cstr, VStr _ => true
  | Cint, VInt _ => true
  | Cint, VBool _ => true
  | Cfloat, VFloat _ => true
  | Cbool, VBool _ => true
  | Clist, VList _ => true
  | Cdict, VDict _ => true
  | _, _ => false
  end.

(** [isinstance(key, str)] *)
Definition key_is_str (k : key) : bool :=
  match k with KStr _ => true | _ => false end.

(** ** Schema

    Type definitions, field definitions, struct and enum definitions are the
    dicts emitted by the IDL compiler.  Every key the code reads with [.get]
    is optional here ([None] when the key is absent). *)

Inductive TypeDef : Type :=
  MkTypeDef (builtIn : option string) (array : option TypeDef)
            (mapValue : option TypeDef) (userDefined : option string).

Definition builtIn (t : TypeDef) : option string :=
  match t with MkTypeDef b _ _ _ => b end.
Definition array (t : TypeDef) : option TypeDef :=
  match t with MkTypeDef _ a _ _ => a end.
Definition mapValue (t : TypeDef) : option TypeDef :=
  match t with MkTypeDef _ _ m _ => m end.
Definition userDefined (t : TypeDef) : option string :=
  match t with MkTypeDef _ _ _ u => u end.

Record FieldDef : Type := MkField {
  name : string;
  type : TypeDef;
  optional : option bool
}.

Record StructDef : Type := MkStruct {
  extends : option string;
  fields : option (list FieldDef)
}.

Record EnumValue : Type := MkEnumValue { ev_name : string }.

Record EnumDef : Type := MkEnum {
  values : option (list EnumValue)
}.

(** Truthiness of the objects the code tests with a bare [if x:]. *)
Definition str_truthy (s : string) : bool :=
  match s with EmptyString => false | String _ _ => true end.

Definition typedef_truthy (t : TypeDef) : bool :=
  match t with
  | MkTypeDef None None None None => false
  | _ => true
  end.

Definition struct_truthy (sd : StructDef) : bool :=
  match sd with
  | MkStruct None None => false
  | _ => true
  end.

Definition enum_truthy (ed : EnumDef) : bool :=
  match ed with
  | MkEnum None => false
  | _ => true
  end.

(** [d.get(k)] followed by a truth test: present and truthy. *)
Definition get_truthy {A} (truthy : A → bool) (o : option A) : option A :=
  match o with
  | Some a => if truthy a then Some a else None
  | None => None
  end.

(** ** types.py *)

Definition find_struct (struct_name : string) (all_structs : gmap string StructDef)
  : option StructDef :=
  all_structs !! struct_name.

Definition find_enum (enum_name : string) (all_enums : gmap string EnumDef)
  : option EnumDef :=
  all_enums !! enum_name.

(** The inner loop of the override branch:
    [for i, f in enumerate(fields): if f['name'] == field['name']: fields[i] = field; break] *)
Fixpoint override_first (fields0 : list FieldDef) (field : FieldDef) : list FieldDef :=
  match fields0 with
  | [] => []
  | f :: rest =>
      if String.eqb (name f) (name field) then field :: rest
      else f :: override_first rest field
  end.

(** One iteration of [for field in struct_def.get('fields', [])], on the pair
    of the mutable list [fields] and the mutable set [field_names]. *)
Definition add_field (st : list FieldDef * gset string) (field : FieldDef)
  : list FieldDef * gset string :=
  let '(fields0, field_names) := st in
  if bool_decide (name field ∉ field_names) then
    (fields0 ++ [field], field_names ∪ {[ name field ]})
  else
    (override_first fields0 field, field_names).

(** [get_struct_fields].  The recursion follows [extends] and need not end
    (a cycle of [extends] recurses until the interpreter gives up), so the
    number of nested calls is bounded by [depth]; [None] is the call that
    did not return. *)
Fixpoint get_struct_fields (depth : nat) (struct_name : string)
    (all_structs : gmap string StructDef) : option (list FieldDef) :=
  match depth with
  | O => None
  | S depth' =>
      match find_struct struct_name all_structs with
      | None => Some []
      | Some struct_def =>
          if negb (struct_truthy struct_def) then Some []
          else
            match
              (match get_truthy str_truthy (extends struct_def) with
               | Some parent => get_struct_fields depth' parent all_structs
               | None => Some []
               end)
            with
            | None => None
            | Some parent_fields =>
                let field_names : gset string := list_to_set (name <$> parent_fields) in
                Some (fold_left add_field (default [] (fields struct_def))
                                (parent_fields, field_names)).1
            end
      end
  end.

(** ** validation.py *)

(** The exceptions the validators raise, by message template.  The payload
    is what the template interpolates; a nested exception is the [{e}] of a
    wrapping message. *)
Inductive exn : Type :=
  | ExpectedType (expected got : string)
      (* TypeError: Expected {expected}, got {got} *)
  | ArrayElementFailed (i : nat) (e : exn)
      (* ValueError: Array element at index {i} validation failed: {e} *)
  | MapKeyNotString (got : string)
      (* TypeError: Map key must be string, got {got} *)
  | MapValueFailed (k : string) (e : exn)
      (* ValueError: Map value for key '{k}' validation failed: {e} *)
  | EnumExpectedString (enum_name got : string)
      (* TypeError: Expected string for enum {enum_name}, got {got} *)
  | InvalidEnumValue (enum_name v : string) (allowed_values : list string)
      (* ValueError: Invalid value for enum {enum_name}: '{v}'. Allowed values: ... *)
  | StructExpectedDict (struct_name got : string)
      (* TypeError: Expected dict for struct {struct_name}, got {got} *)
  | MissingRequiredField (field_name struct_name : string)
      (* ValueError: Missing required field '{field_name}' in struct {struct_name} *)
  | FieldCannotBeNone (field_name struct_name : string)
      (* ValueError: Field '{field_name}' in struct {struct_name} cannot be None *)
  | FieldFailed (field_name struct_name : string) (e : exn)
      (* ValueError: Field '{field_name}' in struct {struct_name} validation failed: {e} *)
  | ValueCannotBeNone
      (* ValueError: Value cannot be None for non-optional type *)
  | UnknownUserType (user_type : string)
      (* ValueError: Unknown user-defined type: {user_type} *)
  | InvalidTypeDefinition (type_def : TypeDef)
      (* ValueError: Invalid type definition: {type_def} *)
  | RecursionError.
      (* the resolver did not return *)

Inductive exn_class : Type := TypeError | ValueError | RuntimeError.

Definition class_of (e : exn) : exn_class :=
  match e with
  | ExpectedType _ _ | MapKeyNotString _ | EnumExpectedString _ _
  | StructExpectedDict _ _ => TypeError
  | RecursionError => RuntimeError
  | _ => ValueError
  end.

(** A validator returns nothing or raises. *)
Inductive result : Type :=
  | Ok
  | Raise (e : exn).

(** [try: r except Exception as e: raise wrap(e) from e] *)
Definition try_except (r : result) (wrap : exn → exn) : result :=
  match r with
  | Ok => Ok
  | Raise e => Raise (wrap e)
  end.

(** [r; k]: statement sequencing, an exception ends the block. *)
Definition seq (r : result) (k : result) : result :=
  match r with
  | Ok => k
  | Raise e => Raise e
  end.

Definition validate_string (v : value) : result :=
  if negb (isinstance v Cstr) then Raise (ExpectedType "string" (type_name v))
  else Ok.

Definition validate_int (v : value) : result :=
  if negb (isinstance v Cint) then Raise (ExpectedType "int" (type_name v))
  else Ok.

Definition validate_float (v : value) : result :=
  if negb (isinstance v Cint || isinstance v Cfloat)
  then Raise (ExpectedType "float" (type_name v))
  else Ok.

Definition validate_bool (v : value) : result :=
  if negb (isinstance v Cbool) then Raise (ExpectedType "bool" (type_name v))
  else Ok.

(** [for i, elem in enumerate(value)] of [validate_array], from index [i]. *)
Fixpoint validate_elements (element_validator : value → result)
    (i : nat) (elems : list value) : result :=
  match elems with
  | [] => Ok
  | elem :: rest =>
      seq (try_except (element_validator elem) (ArrayElementFailed i))
          (validate_elements element_validator (S i) rest)
  end.

Definition validate_array (v : value) (element_validator : value → result) : result :=
  match v with
  | VList elems => validate_elements element_validator 0 elems
  | _ => Raise (ExpectedType "list" (type_name v))
  end.

(** [for key, val in value.items()] of [validate_map]. *)
Fixpoint validate_items (value_validator : value → result)
    (items : list (key * value)) : result :=
  match items with
  | [] => Ok
  | (k, val) :: rest =>
      match k with
      | KStr s =>
          seq (try_except (value_validator val) (MapValueFailed s))
              (validate_items value_validator rest)
      | _ => Raise (MapKeyNotString (key_type_name k))
      end
  end.

Definition validate_map (v : value) (value_validator : value → result) : result :=
  match v with
  | VDict items => validate_items value_validator items
  | _ => Raise (ExpectedType "dict" (type_name v))
  end.

Definition validate_enum (v : value) (enum_name : string)
    (allowed_values : list string) : result :=
  match v with
  | VStr s =>
      if bool_decide (s ∉ allowed_values)
      then Raise (InvalidEnumValue enum_name s allowed_values)
      else Ok
  | _ => Raise (EnumExpectedString enum_name (type_name v))
  end.

(** [key == k] for a string [k]: only a string key can be equal to it. *)
Definition key_is (k' : key) (k : string) : bool :=
  match k' with
  | KStr s => String.eqb s k
  | _ => false
  end.

(** Dict access by a string key: [k in d] and [d[k]] in one traversal, the
    two outcomes as continuations. *)
Fixpoint dict_case {R : Type} (absent : R) (present : value → R)
    (k : string) (items : list (key * value)) : R :=
  match items with
  | [] => absent
  | (k', v) :: rest =>
      if key_is k' k then present v
      else dict_case absent present k rest
  end.

(** [d.get(k)] for a string key. *)
Definition dict_get (items : list (key * value)) (k : string) : option value :=
  dict_case None Some k items.

(** The body of [for field in fields] in [validate_struct].  [validate] is
    the [validate_type] of the enclosing recursion, with the schema already
    supplied. *)
Definition validate_field (validate : value → TypeDef → bool → result)
    (items : list (key * value)) (struct_name : string) (field : FieldDef)
  : result :=
  let field_name := name field in
  let field_type := type field in
  let is_optional := default false (optional field) in
  dict_case
    (* field_name not in value *)
    (if negb is_optional
     then Raise (MissingRequiredField field_name struct_name)
     else Ok)
    (* field_value = value[field_name] *)
    (λ field_value,
       match field_value with
       | VNone =>
           if negb is_optional
           then Raise (FieldCannotBeNone field_name struct_name)
           else Ok
       | _ =>
           let field_validator := λ v, validate v field_type is_optional in
           try_except (field_validator field_value)
                      (FieldFailed field_name struct_name)
       end)
    field_name items.

Fixpoint validate_fields (validate : value → TypeDef → bool → result)
    (items : list (key * value)) (struct_name : string)
    (fields0 : list FieldDef) : result :=
  match fields0 with
  | [] => Ok
  | field :: rest =>
      seq (validate_field validate items struct_name field)
          (validate_fields validate items struct_name rest)
  end.

(** [validate_struct], open in its call back into [validate_type]. *)
Definition validate_struct_with (validate : value → TypeDef → bool → result)
    (depth : nat) (v : value) (struct_name : string) (struct_def : StructDef)
    (all_structs : gmap string StructDef) : result :=
  match v with
  | VDict items =>
      match get_struct_fields depth struct_name all_structs with
      | None => Raise RecursionError
      | Some fields0 => validate_fields validate items struct_name fields0
      end
  | _ => Raise (StructExpectedDict struct_name (type_name v))
  end.

Definition is_None (v : value) : bool :=
  match v with VNone => true | _ => false end.

(** [validate_type].  Every recursive call is on a part of [value] (an
    element, a map value, a field value), which is what the definition
    recurses on; [depth] is only handed to the resolver. *)
Fixpoint validate_type (depth : nat) (v : value) (type_def : TypeDef)
    (all_structs : gmap string StructDef) (all_enums : gmap string EnumDef)
    (is_optional : bool) {struct v} : result :=
  if is_None v then
    if is_optional then Ok else Raise ValueCannotBeNone
  else if bool_decide (builtIn type_def = Some "string") then validate_string v
  else if bool_decide (builtIn type_def = Some "int") then validate_int v
  else if bool_decide (builtIn type_def = Some "float") then validate_float v
  else if bool_decide (builtIn type_def = Some "bool") then validate_bool v
  else
    match get_truthy typedef_truthy (array type_def) with
    | Some element_type =>
        let element_validator :=
          λ e, validate_type depth e element_type all_structs all_enums false in
        validate_array v element_validator
    | None =>
    match get_truthy typedef_truthy (mapValue type_def) with
    | Some value_type =>
        let value_validator :=
          λ x, validate_type depth x value_type all_structs all_enums false in
        validate_map v value_validator
    | None =>
    match get_truthy str_truthy (userDefined type_def) with
    | Some user_type =>
        match get_truthy struct_truthy (find_struct user_type all_structs) with
        | Some struct_def =>
            validate_struct_with
              (λ x t o, validate_type depth x t all_structs all_enums o)
              depth v user_type struct_def all_structs
        | None =>
            match get_truthy enum_truthy (find_enum user_type all_enums) with
            | Some enum_def =>
                let allowed_values := ev_name <$> default [] (values enum_def) in
                validate_enum v user_type allowed_values
            | None => Raise (UnknownUserType user_type)
            end
        end
    | None => Raise (InvalidTypeDefinition type_def)
    end end end.

Definition validate_struct (depth : nat) (v : value) (struct_name : string)
    (struct_def : StructDef) (all_structs : gmap string StructDef)
    (all_enums : gmap string EnumDef) : result :=
  validate_struct_with
    (λ x t o, validate_type depth x t all_structs all_enums o)
    depth v struct_name struct_def all_structs.

(** ** Specification-side definitions *)

(** The resolution rule as the design states it: a declared field whose name
    is not yet in the accumulated list is appended; one whose name is there
    takes the slot of the first entry carrying that name. *)
Definition merge_field (acc : list FieldDef) (field : FieldDef) : list FieldDef :=
  match list_find (λ f, name f = name field) acc with
  | Some (i, _) => <[i := field]> acc
  | None => acc ++ [field]
  end.

Definition merge_fields (parent_fields own_fields : list FieldDef) : list FieldDef :=
  fold_left merge_field own_fields parent_fields.

(** The parent of a struct as [get_struct_fields] sees it: the truthy
    [extends] of a truthy definition. *)
Definition parent_of (all_structs : gmap string StructDef) (struct_name : string)
  : option string :=
  match get_truthy struct_truthy (find_struct struct_name all_structs) with
  | Some struct_def => get_truthy str_truthy (extends struct_def)
  | None => None
  end.

(** What the first half of [get_struct_fields] leaves in [fields] for a
    truthy definition. *)
Definition resolve_parent (depth : nat) (struct_def : StructDef)
    (all_structs : gmap string StructDef) : option (list FieldDef) :=
  match get_truthy str_truthy (extends struct_def) with
  | Some parent => get_struct_fields depth parent all_structs
  | None => Some []
  end.

(** The [extends] chain that starts at a name is finite. *)
Inductive chain_ends (all_structs : gmap string StructDef) : string → Prop :=
  | chain_root struct_name :
      parent_of all_structs struct_name = None →
      chain_ends all_structs struct_name
  | chain_step struct_name parent :
      parent_of all_structs struct_name = Some parent →
      chain_ends all_structs parent →
      chain_ends all_structs struct_name.

(** Schemas of the test-suite. *)
Definition t_builtin (kind : string) : TypeDef := MkTypeDef (Some kind) None None None.
Definition t_array (element_type : TypeDef) : TypeDef :=
  MkTypeDef None (Some element_type) None None.
Definition t_map (value_type : TypeDef) : TypeDef :=
  MkTypeDef None None (Some value_type) None.
Definition t_user (user_type : string) : TypeDef := MkTypeDef None None None (Some user_type).

Definition f_id : FieldDef := MkField "id" (t_builtin "string") None.
Definition f_id_int : FieldDef := MkField "id" (t_builtin "int") None.
Definition f_name : FieldDef := MkField "name" (t_builtin "string") None.

(** [test_get_struct_fields_with_extends] *)
Definition extends_structs : gmap string StructDef :=
  <["Base" := MkStruct None (Some [f_id])]>
  (<["User" := MkStruct (Some "Base") (Some [f_name])]> ∅).

(** [test_get_struct_fields_override_parent] *)
Definition override_structs : gmap string StructDef :=
  <["Base" := MkStruct None (Some [f_id])]>
  (<["User" := MkStruct (Some "Base") (Some [f_id_int; f_name])]> ∅).

(** A struct that extends a name the schema does not have. *)
Definition orphan_structs : gmap string StructDef :=
  <["User" := MkStruct (Some "Base") (Some [f_name])]> ∅.

(** A struct that declares the same name twice. *)
Definition twice_structs : gmap string StructDef :=
  <["Pair" := MkStruct None (Some [f_id; f_name; f_id_int])]> ∅.

(** The variant of a type definition, as the [if]/[elif] chain of
    [validate_type] reads it: the first test that passes decides. *)
Inductive TypeRef : Type :=
  | RBuiltin (kind : string)
  | RArray (element_type : TypeDef)
  | RMap (value_type : TypeDef)
  | RUser (user_type : string)
  | RInvalid.

Definition variant_of (type_def : TypeDef) : TypeRef :=
  if bool_decide (builtIn type_def = Some "string") then RBuiltin "string"
  else if bool_decide (builtIn type_def = Some "int") then RBuiltin "int"
  else if bool_decide (builtIn type_def = Some "float") then RBuiltin "float"
  else if bool_decide (builtIn type_def = Some "bool") then RBuiltin "bool"
  else
    match get_truthy typedef_truthy (array type_def) with
    | Some element_type => RArray element_type
    | None =>
    match get_truthy typedef_truthy (mapValue type_def) with
    | Some value_type => RMap value_type
    | None =>
    match get_truthy str_truthy (userDefined type_def) with
    | Some user_type => RUser user_type
    | None => RInvalid
    end end end.

(** The kinds of decoded value the design distinguishes. *)
Definition is_boolean (v : value) : bool :=
  match v with VBool _ => true | _ => false end.
Definition is_integer (v : value) : bool :=
  match v with VInt _ => true | _ => false end.
Definition is_float (v : value) : bool :=
  match v with VFloat _ => true | _ => false end.
Definition is_numeric (v : value) : bool := is_integer v || is_float v.

(** What the design asks of one field of the resolved list, for a value
    with the given items: an absent or null field needs the field to be
    optional, any other field value has to validate against the field's
    type. *)
Definition field_accepted (depth : nat) (items : list (key * value))
    (all_structs : gmap string StructDef) (all_enums : gmap string EnumDef)
    (field : FieldDef) : Prop :=
  match dict_get items (name field) with
  | None => default false (optional field) = true
  | Some VNone => default false (optional field) = true
  | Some field_value =>
      validate_type depth field_value (type field) all_structs all_enums
        (default false (optional field)) = Ok
  end.

(** What the design asks of one item of a map value. *)
Definition item_accepted (value_validator : value → result) (item : key * value)
  : Prop :=
  key_is_str item.1 = true ∧ value_validator item.2 = Ok.

(** The double 3.14, as sign, mantissa and exponent. *)
Definition float_3_14 : spec_float := S754_finite false 7070651414971679 (-51).

(** [test_validate_struct_optional_field] *)
Definition f_uid : FieldDef := MkField "id" (t_builtin "string") (Some false).
Definition f_email : FieldDef := MkField "email" (t_builtin "string") (Some true).
Definition user_def : StructDef := MkStruct None (Some [f_uid; f_email]).
Definition user_structs : gmap string StructDef := <["User" := user_def]> ∅.

Definition platform_enums : gmap string EnumDef :=
  <["Platform" := MkEnum (Some [MkEnumValue "kindle"; MkEnumValue "nook"])]> ∅.

(** A name that is both a struct and an enum. *)
Definition clash_structs : gmap string StructDef :=
  <["Platform" := MkStruct None (Some [])]> ∅.

(** The entry of a field list that a name designates: the first one
    carrying it. *)
Fixpoint field_named (n : string) (l : list FieldDef) : option FieldDef :=
  match l with
  | [] => None
  | f :: rest => if String.eqb (name f) n then Some f else field_named n rest
  end.

(** Two structs that extend each other. *)
Definition cyclic_structs : gmap string StructDef :=
  <["Ping" := MkStruct (Some "Pong") (Some [f_id])]>
  (<["Pong" := MkStruct (Some "Ping") (Some [f_name])]> ∅).

(** The type definition with no key at all. *)
Definition t_empty : TypeDef := MkTypeDef None None None None.

(** A type definition whose validation never reaches the schema: the
    dispatch of [validate_type], followed through the member types, never
    arrives at a user-defined name. *)
Fixpoint schema_free (type_def : TypeDef) : bool :=
  match type_def with
  | MkTypeDef b a m u =>
      if bool_decide (b = Some "string") then true
      else if bool_decide (b = Some "int") then true
      else if bool_decide (b = Some "float") then true
      else if bool_decide (b = Some "bool") then true
      else
        let no_user :=
          match get_truthy str_truthy u with
          | Some _ => false
          | None => true
          end in
        let no_map :=
          match m with
          | Some value_type =>
              if typedef_truthy value_type then schema_free value_type
              else no_user
          | None => no_user
          end in
        match a with
        | Some element_type =>
            if typedef_truthy element_type then schema_free element_type
            else no_map
        | None => no_map
        end
  end.

(** Induction on values that reaches the elements of a list and the values
    of a dict. *)
Section ValueInduction.

Variable P : value → Prop.
Hypothesis HNone : P VNone.
Hypothesis HBool : ∀ b, P (VBool b).
Hypothesis HInt : ∀ z, P (VInt z).
Hypothesis HFloat : ∀ x, P (VFloat x).
Hypothesis HStr : ∀ s, P (VStr s).
Hypothesis HList : ∀ elems, Forall P elems → P (VList elems).
Hypothesis HDict : ∀ items, Forall (λ item, P item.2) items → P (VDict items).

Fixpoint value_nested_ind (v : value) : P v :=
  match v with
  | VNone => HNone
  | VBool b => HBool b
  | VInt z => HInt z
  | VFloat x => HFloat x
  | VStr s => HStr s
  | VList elems =>
      HList elems
        ((fix go (l : list value) : Forall P l :=
            match l with
            | [] => Forall_nil_2 P
            | x :: rest => Forall_cons_2 P x rest (value_nested_ind x) (go rest)
            end) elems)
  | VDict items =>
      HDict items
        ((fix go (l : list (key * value)) : Forall (λ item, P item.2) l :=
            match l with
            | [] => Forall_nil_2 _
            | item :: rest =>
                Forall_cons_2 (λ item, P item.2) item rest
                  (value_nested_ind item.2) (go rest)
            end) items)
  end.

End ValueInduction.

(** * Properties *)

(** ** The resolver *)

Section Resolver.

Implicit Types (acc own : list FieldDef) (field : FieldDef).

Lemma override_first_insert acc field i g :
  list_find (λ f, name f = name field) acc = Some (i, g) →
  override_first acc field = <[i := field]> acc.
Proof.
  revert i. induction acc as [|f acc IH]; intros i Hfind; [done|].
  cbn in Hfind. simpl.
  destruct (decide (name f = name field)) as [Heq|Hne].
  - apply String.eqb_eq in Heq as ->. by simplify_eq.
  - apply String.eqb_neq in Hne as ->.
    destruct (list_find _ acc) as [[j h]|] eqn:E; simplify_eq/=.
    f_equal. by eapply IH.
Qed.

Lemma list_find_name_None acc field :
  list_find (λ f, name f = name field) acc = None ↔ name field ∉ name <$> acc.
Proof.
  rewrite list_find_None, list_elem_of_fmap, Forall_forall.
  split.
  - intros H (f & Hn & Hin). by apply (H f).
  - intros H f Hin Hn. apply H. eauto.
Qed.

Lemma merge_field_names acc field :
  name <$> merge_field acc field =
    if bool_decide (name field ∈ name <$> acc) then name <$> acc
    else (name <$> acc) ++ [name field].
Proof.
  unfold merge_field.
  destruct (list_find _ acc) as [[i g]|] eqn:E.
  - apply list_find_Some in E as (Hi & Hg & _).
    rewrite bool_decide_eq_true_2.
    + rewrite list_fmap_insert. apply list_insert_id.
      by rewrite list_lookup_fmap, Hi, <- Hg.
    + apply list_elem_of_fmap. exists g. split; [done|].
      by eapply list_elem_of_lookup_2.
  - apply list_find_name_None in E.
    rewrite bool_decide_eq_false_2 by done. by rewrite fmap_app.
Qed.

(** The loop body keeps [field_names] equal to the names in [fields] and
    does what [merge_field] says. *)
Lemma add_field_merge acc field :
  add_field (acc, list_to_set (name <$> acc)) field =
    (merge_field acc field, list_to_set (name <$> merge_field acc field)).
Proof.
  unfold add_field. rewrite merge_field_names. unfold merge_field.
  destruct (list_find _ acc) as [[i g]|] eqn:E.
  - assert (name field ∈ name <$> acc) as Hin.
    { apply list_find_Some in E as (Hi & Hg & _).
      apply list_elem_of_fmap. exists g. split; [done|].
      by eapply list_elem_of_lookup_2. }
    rewrite bool_decide_eq_false_2 by (rewrite elem_of_list_to_set; tauto).
    rewrite bool_decide_eq_true_2 by done.
    by erewrite override_first_insert.
  - apply list_find_name_None in E.
    rewrite bool_decide_eq_true_2 by (by rewrite elem_of_list_to_set).
    rewrite bool_decide_eq_false_2 by done.
    by rewrite list_to_set_snoc_L.
Qed.

Lemma fold_add_field_merge own acc :
  fold_left add_field own (acc, list_to_set (name <$> acc)) =
    (merge_fields acc own, list_to_set (name <$> merge_fields acc own)).
Proof.
  revert acc. induction own as [|field own IH]; intros acc; [done|].
  cbn [fold_left]. rewrite add_field_merge. apply IH.
Qed.

Lemma get_struct_fields_unfold depth struct_name all_structs :
  get_struct_fields (S depth) struct_name all_structs =
    match get_truthy struct_truthy (find_struct struct_name all_structs) with
    | None => Some []
    | Some struct_def =>
        match resolve_parent depth struct_def all_structs with
        | None => None
        | Some parent_fields =>
            Some (merge_fields parent_fields (default [] (fields struct_def)))
        end
    end.
Proof.
  simpl. unfold resolve_parent.
  destruct (find_struct struct_name all_structs) as [sd|]; [|done]. simpl.
  destruct (struct_truthy sd); [|done]. simpl.
  destruct (match get_truthy str_truthy (extends sd) with
            | Some parent => get_struct_fields depth parent all_structs
            | None => Some []
            end) as [pf|]; [|done].
  by rewrite fold_add_field_merge.
Qed.

Lemma merge_field_NoDup acc field :
  NoDup (name <$> acc) → NoDup (name <$> merge_field acc field).
Proof.
  intros Hnd. rewrite merge_field_names. case_bool_decide as Hin; [done|].
  apply NoDup_app. split_and!; [done| |apply NoDup_singleton].
  intros x Hx ->%list_elem_of_singleton. done.
Qed.

Lemma merge_fields_NoDup own acc :
  NoDup (name <$> acc) → NoDup (name <$> merge_fields acc own).
Proof.
  revert acc. induction own as [|field own IH]; intros acc Hnd; [done|].
  apply IH. by apply merge_field_NoDup.
Qed.

(** Merging never moves an entry: the names already accumulated stay where
    they are, new names are added behind them. *)
Lemma merge_fields_names_prefix own acc :
  (name <$> acc) `prefix_of` (name <$> merge_fields acc own).
Proof.
  revert acc. induction own as [|field own IH]; intros acc; [done|].
  etrans; [|apply IH]. rewrite merge_field_names.
  case_bool_decide; [done|]. by apply prefix_app_r.
Qed.

(** With no name clash at all the merge is plain concatenation. *)
Lemma merge_fields_fresh own acc :
  NoDup (name <$> acc ++ own) → merge_fields acc own = acc ++ own.
Proof.
  revert acc. induction own as [|field own IH]; intros acc Hnd.
  { by rewrite app_nil_r. }
  unfold merge_fields. cbn [fold_left]. fold (merge_fields (merge_field acc field) own).
  assert (merge_field acc field = acc ++ [field]) as ->.
  { unfold merge_field.
    destruct (list_find _ acc) as [[i g]|] eqn:E; [|done].
    exfalso. apply list_find_Some in E as (Hi & Hg & _).
    rewrite fmap_app in Hnd. apply NoDup_app in Hnd as (_ & Hdis & _).
    apply (Hdis (name field)).
    - apply list_elem_of_fmap. exists g. split; [done|].
      by eapply list_elem_of_lookup_2.
    - simpl. left. }
  rewrite IH; [by rewrite <- app_assoc|].
  by rewrite <- app_assoc.
Qed.

Lemma get_struct_fields_NoDup depth struct_name all_structs resolved :
  get_struct_fields depth struct_name all_structs = Some resolved →
  NoDup (name <$> resolved).
Proof.
  revert struct_name resolved.
  induction depth as [|depth IH]; intros struct_name resolved; [done|].
  rewrite get_struct_fields_unfold.
  destruct (get_truthy struct_truthy _) as [sd|]; [|intros [= <-]; constructor].
  unfold resolve_parent.
  destruct (get_truthy str_truthy (extends sd)) as [parent|].
  - destruct (get_struct_fields depth parent all_structs) as [pf|] eqn:E; [|done].
    intros [= <-]. apply merge_fields_NoDup. by eapply IH.
  - intros [= <-]. apply merge_fields_NoDup. constructor.
Qed.

(** More depth does not change a call that returned. *)
Lemma get_struct_fields_mono depth depth' struct_name all_structs resolved :
  (depth ≤ depth')%nat →
  get_struct_fields depth struct_name all_structs = Some resolved →
  get_struct_fields depth' struct_name all_structs = Some resolved.
Proof.
  revert depth' struct_name resolved.
  induction depth as [|depth IH]; intros depth' struct_name resolved Hle; [done|].
  destruct depth' as [|depth']; [lia|].
  rewrite !get_struct_fields_unfold.
  destruct (get_truthy struct_truthy _) as [sd|]; [|done].
  unfold resolve_parent.
  destruct (get_truthy str_truthy (extends sd)) as [parent|]; [|done].
  destruct (get_struct_fields depth parent all_structs) as [pf|] eqn:E; [|done].
  by rewrite (IH depth' parent pf) by (done || lia).
Qed.

(** A finite chain is resolved with finitely many nested calls. *)
Lemma chain_ends_returns all_structs struct_name :
  chain_ends all_structs struct_name →
  ∃ depth resolved,
    get_struct_fields depth struct_name all_structs = Some resolved.
Proof.
  induction 1 as [struct_name Hp|struct_name parent Hp _ (depth & pf & IH)].
  - exists 1. rewrite get_struct_fields_unfold. unfold parent_of in Hp.
    destruct (get_truthy struct_truthy _) as [sd|]; [|eauto].
    unfold resolve_parent. rewrite Hp. eauto.
  - exists (S depth). rewrite get_struct_fields_unfold. unfold parent_of in Hp.
    destruct (get_truthy struct_truthy _) as [sd|]; [|done].
    unfold resolve_parent. rewrite Hp, IH. eauto.
Qed.

End Resolver.

(** [merge_field] read off position by position: a fresh name goes to the
    end, a known name has its first entry replaced where it stands. *)
Lemma merge_field_cases (acc : list FieldDef) (field : FieldDef) :
  (name field ∉ name <$> acc → merge_field acc field = acc ++ [field])
  ∧ (∀ i g, acc !! i = Some g → name g = name field →
       (∀ j h, acc !! j = Some h → (j < i)%nat → name h ≠ name field) →
       merge_field acc field = <[i := field]> acc).
Proof.
  split.
  - intros Hfresh. apply list_find_name_None in Hfresh.
    unfold merge_field. by rewrite Hfresh.
  - intros i g Hi Hg Hfirst. unfold merge_field.
    assert (list_find (λ f, name f = name field) acc = Some (i, g)) as ->; [|done].
    apply list_find_Some. eauto.
Qed.

(** C1: for a struct the schema has (a non-empty definition under the
    name), [get_struct_fields] first resolves the parent's fields along
    [extends] and then merges the fields the struct declares, in declaration
    order: a name not yet in the accumulated list is appended, a name already
    there has its entry replaced in the same slot.  The names of the parent's
    fields keep their positions in the result. *)
Theorem get_struct_fields_parent_then_own
    (depth : nat) (struct_name : string) (all_structs : gmap string StructDef)
    (struct_def : StructDef) (parent_fields : list FieldDef) :
  find_struct struct_name all_structs = Some struct_def →
  struct_truthy struct_def = true →
  resolve_parent depth struct_def all_structs = Some parent_fields →
  get_struct_fields (S depth) struct_name all_structs
    = Some (merge_fields parent_fields (default [] (fields struct_def)))
  ∧ (name <$> parent_fields) `prefix_of`
      (name <$> merge_fields parent_fields (default [] (fields struct_def))).
Proof.
  intros Hfind Htruthy Hparent. split.
  - rewrite get_struct_fields_unfold, Hfind. simpl.
    by rewrite Htruthy, Hparent.
  - apply merge_fields_names_prefix.
Qed.

(** [test_get_struct_fields_with_extends]: [Base] declares [id], [User]
    extends [Base] and declares [name]; the resolved list is [id, name]. *)
Lemma get_struct_fields_with_extends :
  get_struct_fields 2 "User" extends_structs = Some [f_id; f_name].
Proof.
  destruct (get_struct_fields_parent_then_own 1 "User" extends_structs
              (MkStruct (Some "Base") (Some [f_name])) [f_id]) as [Hres _];
    [vm_compute; reflexivity ..|].
  rewrite Hres. vm_compute. reflexivity.
Defined.

(** [test_get_struct_fields_override_parent]: the child's [id] takes the
    slot of the parent's [id]. *)
Example get_struct_fields_override_parent :
  get_struct_fields 2 "User" override_structs = Some [f_id_int; f_name].
Proof. vm_compute. reflexivity. Qed.

(** C9: resolution is lenient about missing structs.  A name the schema does
    not have resolves to the empty list; a struct whose [extends] names a
    struct the schema does not have resolves to the merge of its own declared
    fields alone, which is the declared list itself when its names are
    distinct.  Neither case raises. *)
Theorem get_struct_fields_missing_struct :
  (∀ (depth : nat) (struct_name : string) (all_structs : gmap string StructDef),
     find_struct struct_name all_structs = None →
     get_struct_fields (S depth) struct_name all_structs = Some [])
  ∧ (∀ (depth : nat) (struct_name parent : string)
       (all_structs : gmap string StructDef) (struct_def : StructDef),
     find_struct struct_name all_structs = Some struct_def →
     extends struct_def = Some parent →
     find_struct parent all_structs = None →
     get_struct_fields (S (S depth)) struct_name all_structs
       = Some (merge_fields [] (default [] (fields struct_def)))
     ∧ (NoDup (name <$> default [] (fields struct_def)) →
        get_struct_fields (S (S depth)) struct_name all_structs
          = Some (default [] (fields struct_def)))).
Proof.
  split.
  - intros depth struct_name all_structs Hfind.
    by rewrite get_struct_fields_unfold, Hfind.
  - intros depth struct_name parent all_structs struct_def Hfind Hext Hparent.
    assert (get_struct_fields (S (S depth)) struct_name all_structs
            = Some (merge_fields [] (default [] (fields struct_def)))) as Hres.
    { rewrite get_struct_fields_unfold, Hfind.
      destruct struct_def as [ext fs]. simpl in Hext. subst ext.
      unfold resolve_parent. cbn [get_truthy struct_truthy extends].
      destruct (str_truthy parent); [|done].
      by rewrite get_struct_fields_unfold, Hparent. }
    split; [done|]. intros Hnd. rewrite Hres. f_equal.
    by apply (merge_fields_fresh _ []).
Qed.

Lemma get_struct_fields_missing_struct_example :
  get_struct_fields 1 "Ghost" orphan_structs = Some []
  ∧ get_struct_fields 2 "User" orphan_structs = Some [f_name].
Proof.
  destruct get_struct_fields_missing_struct as [Habsent Horphan]. split.
  - apply (Habsent 0%nat). vm_compute. reflexivity.
  - destruct (Horphan 0%nat "User" "Base" orphan_structs
                (MkStruct (Some "Base") (Some [f_name]))) as [_ Hown];
      [vm_compute; reflexivity ..|].
    apply Hown. vm_compute. repeat constructor; set_solver.
Defined.

(** A struct that declares [id] twice: the later declaration takes the slot
    of the earlier one. *)
Example get_struct_fields_declared_twice :
  get_struct_fields 1 "Pair" twice_structs = Some [f_id_int; f_name].
Proof. vm_compute. reflexivity. Qed.

(** ** The validator *)

Section Validator.

Context (depth : nat) (all_structs : gmap string StructDef)
        (all_enums : gmap string EnumDef).

Implicit Types (v : value) (type_def : TypeDef) (is_optional : bool).

(** The validator with the schema at hand. *)
Local Abbreviation validate v type_def is_optional :=
  (validate_type depth v type_def all_structs all_enums is_optional).

Lemma validate_type_None type_def is_optional :
  validate VNone type_def is_optional
  = if is_optional then Ok else Raise ValueCannotBeNone.
Proof. reflexivity. Qed.

Lemma validate_type_array v type_def element_type is_optional :
  is_None v = false →
  variant_of type_def = RArray element_type →
  validate v type_def is_optional
  = validate_array v (λ e, validate e element_type false).
Proof.
  intros Hv Hvar. unfold variant_of in Hvar.
  destruct v; try discriminate Hv; simpl;
    repeat case_bool_decide; try discriminate Hvar;
    destruct (get_truthy typedef_truthy (array type_def)); simplify_eq; try done;
    destruct (get_truthy typedef_truthy (mapValue type_def)); simplify_eq;
    destruct (get_truthy str_truthy (userDefined type_def)); simplify_eq.
Qed.

Lemma validate_type_map v type_def value_type is_optional :
  is_None v = false →
  variant_of type_def = RMap value_type →
  validate v type_def is_optional
  = validate_map v (λ x, validate x value_type false).
Proof.
  intros Hv Hvar. unfold variant_of in Hvar.
  destruct v; try discriminate Hv; simpl;
    repeat case_bool_decide; try discriminate Hvar;
    destruct (get_truthy typedef_truthy (array type_def)); simplify_eq;
    destruct (get_truthy typedef_truthy (mapValue type_def)); simplify_eq; try done;
    destruct (get_truthy str_truthy (userDefined type_def)); simplify_eq.
Qed.

Lemma validate_type_user v type_def user_type is_optional :
  is_None v = false →
  variant_of type_def = RUser user_type →
  validate v type_def is_optional
  = match get_truthy struct_truthy (find_struct user_type all_structs) with
    | Some struct_def =>
        validate_struct depth v user_type struct_def all_structs all_enums
    | None =>
        match get_truthy enum_truthy (find_enum user_type all_enums) with
        | Some enum_def =>
            validate_enum v user_type (ev_name <$> default [] (values enum_def))
        | None => Raise (UnknownUserType user_type)
        end
    end.
Proof.
  intros Hv Hvar. unfold variant_of in Hvar.
  destruct v; try discriminate Hv; simpl;
    repeat case_bool_decide; try discriminate Hvar;
    destruct (get_truthy typedef_truthy (array type_def)); simplify_eq;
    destruct (get_truthy typedef_truthy (mapValue type_def)); simplify_eq;
    destruct (get_truthy str_truthy (userDefined type_def)); simplify_eq; done.
Qed.

Lemma validate_type_builtin v kind is_optional :
  is_None v = false →
  validate v (t_builtin kind) is_optional
  = if bool_decide (kind = "string") then validate_string v
    else if bool_decide (kind = "int") then validate_int v
    else if bool_decide (kind = "float") then validate_float v
    else if bool_decide (kind = "bool") then validate_bool v
    else Raise (InvalidTypeDefinition (t_builtin kind)).
Proof.
  intros Hv.
  destruct v; try discriminate Hv; simpl;
    repeat case_bool_decide; simplify_eq; done.
Qed.

Lemma try_except_Ok (r : result) (wrap : exn → exn) :
  try_except r wrap = Ok ↔ r = Ok.
Proof. by destruct r. Qed.

Lemma seq_Ok (r k : result) : seq r k = Ok ↔ r = Ok ∧ k = Ok.
Proof. destruct r; simpl; intuition congruence. Qed.

(** *** Arrays and maps *)

Lemma validate_items_Ok (value_validator : value → result) items :
  validate_items value_validator items = Ok
  ↔ Forall (item_accepted value_validator) items.
Proof.
  induction items as [|[k x] items IH]; simpl.
  { split; [constructor|done]. }
  rewrite Forall_cons. unfold item_accepted at 1. simpl.
  destruct k; simpl; try (split; [done|intros [[[=] _] _]]).
  rewrite seq_Ok, try_except_Ok, IH. intuition.
Qed.

Lemma validate_items_app (value_validator : value → result) pre rest :
  Forall (item_accepted value_validator) pre →
  validate_items value_validator (pre ++ rest)
  = validate_items value_validator rest.
Proof.
  induction 1 as [|[k x] pre [Hk Hx] _ IH]; [done|].
  simpl in *. destruct k; try discriminate Hk. by rewrite Hx.
Qed.

Lemma validate_elements_None (value_validator : value → result) i elems :
  (∀ x, is_None x = true → value_validator x ≠ Ok) →
  VNone ∈ elems →
  ∃ e, validate_elements value_validator i elems = Raise e.
Proof.
  intros Hnone Hin. revert i.
  induction elems as [|x elems IH]; intros i; [by apply elem_of_nil in Hin|].
  simpl. destruct (value_validator x) as [|e] eqn:E; simpl; [|eauto].
  apply elem_of_cons in Hin as [<-|Hin]; [|by apply IH].
  by apply Hnone in E.
Qed.

Lemma validate_items_None (value_validator : value → result) k items :
  (∀ x, is_None x = true → value_validator x ≠ Ok) →
  (k, VNone) ∈ items →
  ∃ e, validate_items value_validator items = Raise e.
Proof.
  intros Hnone Hin.
  induction items as [|[k' x] items IH]; [by apply elem_of_nil in Hin|].
  simpl. destruct k'; eauto.
  destruct (value_validator x) as [|e] eqn:E; simpl; [|eauto].
  apply elem_of_cons in Hin as [[= -> <-]|Hin]; [|by apply IH].
  by apply Hnone in E.
Qed.

(** *** Structs *)

Lemma dict_case_get {R : Type} (absent : R) (present : value → R) k items :
  dict_case absent present k items
  = match dict_get items k with
    | None => absent
    | Some x => present x
    end.
Proof.
  unfold dict_get. induction items as [|[k' x] items IH]; [done|].
  simpl. by destruct (key_is k' k).
Qed.

Lemma validate_field_Ok items struct_name field :
  validate_field (λ x t o, validate x t o) items struct_name field = Ok
  ↔ field_accepted depth items all_structs all_enums field.
Proof.
  unfold validate_field, field_accepted. rewrite dict_case_get.
  destruct (dict_get items (name field)) as [fv|];
    [destruct fv|]; rewrite ?try_except_Ok; try done;
    by destruct (default false (optional field)).
Qed.

Lemma validate_fields_Ok items struct_name fields0 :
  validate_fields (λ x t o, validate x t o) items struct_name fields0 = Ok
  ↔ Forall (field_accepted depth items all_structs all_enums) fields0.
Proof.
  induction fields0 as [|field fields0 IH]; simpl.
  { split; [constructor|done]. }
  by rewrite seq_Ok, Forall_cons, validate_field_Ok, IH.
Qed.

Lemma validate_fields_app items struct_name pre rest :
  Forall (field_accepted depth items all_structs all_enums) pre →
  validate_fields (λ x t o, validate x t o) items struct_name (pre ++ rest)
  = validate_fields (λ x t o, validate x t o) items struct_name rest.
Proof.
  induction 1 as [|field pre Hf _ IH]; [done|].
  simpl. apply validate_field_Ok with (struct_name := struct_name) in Hf.
  by rewrite Hf.
Qed.

(** Only the items under the declared names are ever read. *)
Lemma validate_fields_ext items items' struct_name fields0 :
  (∀ field, field ∈ fields0 →
     dict_get items' (name field) = dict_get items (name field)) →
  validate_fields (λ x t o, validate x t o) items' struct_name fields0
  = validate_fields (λ x t o, validate x t o) items struct_name fields0.
Proof.
  induction fields0 as [|field fields0 IH]; intros Hsame; [done|].
  simpl. rewrite IH by (intros f Hf; apply Hsame; by right).
  f_equal. unfold validate_field. rewrite !dict_case_get.
  rewrite Hsame by left. done.
Qed.

Lemma dict_get_extra items1 items2 k x n :
  key_is k n = false →
  dict_get (items1 ++ (k, x) :: items2) n = dict_get (items1 ++ items2) n.
Proof.
  intros Hk. unfold dict_get.
  induction items1 as [|[k' y] items1 IH]; simpl.
  - by rewrite Hk.
  - by destruct (key_is k' n).
Qed.

End Validator.

(** C4: a [None] value is settled by [is_optional] alone, before the type
    definition is looked at: the result is the same for every type
    definition, well-formed or not, and it is success exactly when
    [is_optional] holds. *)
Theorem validate_type_None_before_dispatch
    (depth : nat) (type_def : TypeDef) (all_structs : gmap string StructDef)
    (all_enums : gmap string EnumDef) (is_optional : bool) :
  validate_type depth VNone type_def all_structs all_enums is_optional
    = (if is_optional then Ok else Raise ValueCannotBeNone)
  ∧ (validate_type depth VNone type_def all_structs all_enums is_optional = Ok
     ↔ is_optional = true).
Proof.
  split; [reflexivity|]. simpl. by destruct is_optional.
Qed.

(** [test_validate_type_optional_none] *)
Example validate_type_optional_none :
  validate_type 0 VNone (t_builtin "string") ∅ ∅ true = Ok
  ∧ validate_type 0 VNone (t_builtin "string") ∅ ∅ false = Raise ValueCannotBeNone.
Proof. split; reflexivity. Qed.

(** C3, as stated, fails: a boolean passes validation against the builtin
    [int], because a [bool] is an instance of [int]. *)
Lemma boolean_accepted_as_int :
  is_boolean (VBool true) = true
  ∧ validate_int (VBool true) = Ok
  ∧ validate_type 0 (VBool true) (t_builtin "int") ∅ ∅ false = Ok.
Proof. repeat split; vm_compute; reflexivity. Qed.

(** C3, amended: validation against the builtin [bool] succeeds exactly on
    booleans, so an integer is rejected by it; a boolean, however, is
    accepted by validation against the builtin [int]. *)
Theorem bool_validation_exact_int_admits_bool
    (depth : nat) (all_structs : gmap string StructDef)
    (all_enums : gmap string EnumDef) (v : value) (b : bool) (z : Z) :
  (validate_bool v = Ok ↔ is_boolean v = true)
  ∧ (validate_type depth v (t_builtin "bool") all_structs all_enums false = Ok
     ↔ is_boolean v = true)
  ∧ validate_type depth (VInt z) (t_builtin "bool") all_structs all_enums false
    = Raise (ExpectedType "bool" "int")
  ∧ validate_type depth (VBool b) (t_builtin "int") all_structs all_enums false
    = Ok.
Proof.
  split_and!; [by destruct v | by destruct v | done | done].
Qed.

(** C6, as stated, fails: a boolean is not an integer of the data model,
    and validation against the builtin [int] accepts it. *)
Lemma non_integer_passes_int_validation :
  is_integer (VBool false) = false
  ∧ validate_type 0 (VBool false) (t_builtin "int") ∅ ∅ false = Ok.
Proof. split; vm_compute; reflexivity. Qed.

(** C6, amended: validation against the builtin [int] succeeds exactly on
    integers and booleans, so every float fails it, with or without a
    fractional part; validation against the builtin [float] succeeds on every
    integer and every float (and on booleans).  The widening goes from int
    to float only. *)
Theorem int_validation_rejects_floats_float_admits_ints
    (depth : nat) (all_structs : gmap string StructDef)
    (all_enums : gmap string EnumDef) (v : value) (x : spec_float) (z : Z) :
  (validate_type depth v (t_builtin "int") all_structs all_enums false = Ok
   ↔ is_integer v = true ∨ is_boolean v = true)
  ∧ (validate_type depth v (t_builtin "float") all_structs all_enums false = Ok
     ↔ is_numeric v = true ∨ is_boolean v = true)
  ∧ validate_type depth (VFloat x) (t_builtin "int") all_structs all_enums false
    = Raise (ExpectedType "int" "float")
  ∧ validate_type depth (VInt z) (t_builtin "float") all_structs all_enums false
    = Ok.
Proof.
  split_and!; [| |done|done].
  - destruct v; cbv; intuition congruence.
  - destruct v; cbv; intuition congruence.
Qed.

(** [test_validate_int_failure], [test_validate_float_success] *)
Example validate_widening :
  validate_type 0 (VInt 42) (t_builtin "float") ∅ ∅ false = Ok
  ∧ validate_type 0 (VFloat float_3_14) (t_builtin "int") ∅ ∅ false
    = Raise (ExpectedType "int" "float").
Proof. split; reflexivity. Qed.

(** C7: the elements of an array and the values of a map are validated
    with [is_optional = False], whatever the [is_optional] of the collection
    itself; a [None] among them therefore makes validation fail. *)
Theorem collection_members_never_optional
    (depth : nat) (all_structs : gmap string StructDef)
    (all_enums : gmap string EnumDef) (v : value) (type_def member_type : TypeDef)
    (is_optional : bool) :
  is_None v = false →
  (variant_of type_def = RArray member_type →
     validate_type depth v type_def all_structs all_enums is_optional
     = validate_array v
         (λ e, validate_type depth e member_type all_structs all_enums false)
     ∧ ∀ elems, v = VList elems → VNone ∈ elems →
         ∃ e, validate_type depth v type_def all_structs all_enums is_optional
              = Raise e)
  ∧ (variant_of type_def = RMap member_type →
     validate_type depth v type_def all_structs all_enums is_optional
     = validate_map v
         (λ x, validate_type depth x member_type all_structs all_enums false)
     ∧ ∀ items k, v = VDict items → (k, VNone) ∈ items →
         ∃ e, validate_type depth v type_def all_structs all_enums is_optional
              = Raise e).
Proof.
  intros Hv. split; intros Hvar.
  - rewrite (validate_type_array _ _ _ _ _ member_type) by done.
    split; [done|]. intros elems -> Hin. simpl.
    apply validate_elements_None; [|done].
    intros [] [=]. done.
  - rewrite (validate_type_map _ _ _ _ _ member_type) by done.
    split; [done|]. intros items k -> Hin. simpl.
    apply (validate_items_None _ k); [|done].
    intros [] [=]. done.
Qed.

Lemma collection_members_never_optional_example :
  (∃ e, validate_type 0 (VList [VStr "a"; VNone])
          (t_array (t_builtin "string")) ∅ ∅ true = Raise e)
  ∧ (∃ e, validate_type 0 (VDict [(KStr "a", VNone)])
            (t_map (t_builtin "string")) ∅ ∅ true = Raise e).
Proof.
  split.
  - destruct (collection_members_never_optional 0 ∅ ∅
                (VList [VStr "a"; VNone]) (t_array (t_builtin "string"))
                (t_builtin "string") true eq_refl) as [Harr _].
    destruct (Harr eq_refl) as [_ Hnone].
    apply (Hnone [VStr "a"; VNone] eq_refl). right. left.
  - destruct (collection_members_never_optional 0 ∅ ∅
                (VDict [(KStr "a", VNone)]) (t_map (t_builtin "string"))
                (t_builtin "string") true eq_refl) as [_ Hmap].
    destruct (Hmap eq_refl) as [_ Hnone].
    apply (Hnone [(KStr "a", VNone)] (KStr "a") eq_refl). left.
Defined.

(** The first [None] of an optional array is reported at its index. *)
Example validate_array_None_element :
  validate_type 0 (VList [VStr "a"; VNone]) (t_array (t_builtin "string")) ∅ ∅ true
  = Raise (ArrayElementFailed 1 ValueCannotBeNone).
Proof. reflexivity. Qed.

(** C8: [validate_map] succeeds exactly on a dict all of whose keys are
    strings and all of whose values pass the value validator.  At the first
    item that is not accepted, a key that is not a string raises the key-type
    error whatever its value is, and a string key with a failing value raises
    the error of the value with the key attached.  This is the check that
    [validate_type] runs for a map type. *)
Theorem validate_map_keys_and_values
    (value_validator : value → result) (v : value) :
  (validate_map v value_validator = Ok
   ↔ ∃ items, v = VDict items ∧ Forall (item_accepted value_validator) items)
  ∧ (∀ pre k x post,
       v = VDict (pre ++ (k, x) :: post) →
       Forall (item_accepted value_validator) pre →
       (key_is_str k = false →
          validate_map v value_validator
          = Raise (MapKeyNotString (key_type_name k)))
       ∧ (∀ s e, k = KStr s → value_validator x = Raise e →
            validate_map v value_validator = Raise (MapValueFailed s e)))
  ∧ (∀ depth type_def value_type all_structs all_enums is_optional,
       is_None v = false →
       variant_of type_def = RMap value_type →
       value_validator
       = (λ x, validate_type depth x value_type all_structs all_enums false) →
       validate_type depth v type_def all_structs all_enums is_optional
       = validate_map v value_validator).
Proof.
  split_and!.
  - destruct v; simpl; try (split; [done|intros (? & [=] & _)]).
    rewrite validate_items_Ok. split; [eauto|].
    by intros (? & [= <-] & ?).
  - intros pre k x post -> Hpre. simpl.
    rewrite validate_items_app by done. simpl. split.
    + by destruct k.
    + intros s e -> Hx. by rewrite Hx.
  - intros depth type_def value_type all_structs all_enums is_optional Hv Hvar ->.
    by apply validate_type_map.
Qed.

(** [test_validate_map_non_string_key] and
    [test_validate_map_value_validation_fails], through [validate_type]. *)
Lemma validate_map_keys_and_values_example :
  validate_type 0 (VDict [(KInt 123, VStr "x")]) (t_map (t_builtin "string")) ∅ ∅ false
  = Raise (MapKeyNotString "int")
  ∧ validate_type 0 (VDict [(KStr "a", VStr "not an int")]) (t_map (t_builtin "int"))
      ∅ ∅ false
    = Raise (MapValueFailed "a" (ExpectedType "int" "str")).
Proof.
  split.
  - destruct (validate_map_keys_and_values
                (λ x, validate_type 0 x (t_builtin "string") ∅ ∅ false)
                (VDict [(KInt 123, VStr "x")])) as (_ & Hfirst & Htype).
    rewrite (Htype 0%nat (t_map (t_builtin "string")) (t_builtin "string")
               ∅ ∅ false eq_refl eq_refl eq_refl).
    destruct (Hfirst [] (KInt 123) (VStr "x") [] eq_refl (Forall_nil_2 _))
      as [Hkey _].
    exact (Hkey eq_refl).
  - destruct (validate_map_keys_and_values
                (λ x, validate_type 0 x (t_builtin "int") ∅ ∅ false)
                (VDict [(KStr "a", VStr "not an int")])) as (_ & Hfirst & Htype).
    rewrite (Htype 0%nat (t_map (t_builtin "int")) (t_builtin "int")
               ∅ ∅ false eq_refl eq_refl eq_refl).
    destruct (Hfirst [] (KStr "a") (VStr "not an int") [] eq_refl (Forall_nil_2 _))
      as [_ Hval].
    exact (Hval "a" (ExpectedType "int" "str") eq_refl eq_refl).
Defined.

(** A failing value that comes first hides a later key that is not a
    string: the items are checked in order. *)
Example validate_map_in_order :
  validate_type 0 (VDict [(KStr "a", VStr "x"); (KInt 123, VInt 1)])
    (t_map (t_builtin "int")) ∅ ∅ false
  = Raise (MapValueFailed "a" (ExpectedType "int" "str")).
Proof. reflexivity. Qed.

Lemma validate_enum_Ok (v : value) (enum_name : string)
    (allowed_values : list string) :
  validate_enum v enum_name allowed_values = Ok
  ↔ ∃ s, v = VStr s ∧ s ∈ allowed_values.
Proof.
  destruct v; simpl; try (split; [done|intros (? & [=] & _)]).
  case_bool_decide as Hin.
  - split; [done|]. intros (? & [= <-] & ?). done.
  - split; [|done]. intros _. exists s. split; [done|].
    by destruct (decide (s ∈ allowed_values)).
Qed.

(** C5: a user-defined reference is resolved against the structs first and
    against the enums second.  When the schema has a struct definition under
    the name, the value goes through struct validation, also when an enum
    of that name exists; when it has no struct but an enum definition, the
    value must be a string equal to one of the enum's values; when it has
    neither, validation raises the unknown-type error.  (A definition is a
    non-empty dict, which is how the code tells it from a missing one.) *)
Theorem validate_type_user_defined
    (depth : nat) (all_structs : gmap string StructDef)
    (all_enums : gmap string EnumDef) (v : value) (type_def : TypeDef)
    (user_type : string) (is_optional : bool) :
  is_None v = false →
  variant_of type_def = RUser user_type →
  (∀ struct_def,
     find_struct user_type all_structs = Some struct_def →
     struct_truthy struct_def = true →
     validate_type depth v type_def all_structs all_enums is_optional
     = validate_struct depth v user_type struct_def all_structs all_enums)
  ∧ (∀ enum_def,
       find_struct user_type all_structs = None →
       find_enum user_type all_enums = Some enum_def →
       enum_truthy enum_def = true →
       validate_type depth v type_def all_structs all_enums is_optional
       = validate_enum v user_type (ev_name <$> default [] (values enum_def))
       ∧ (validate_type depth v type_def all_structs all_enums is_optional = Ok
          ↔ ∃ s, v = VStr s ∧ s ∈ ev_name <$> default [] (values enum_def)))
  ∧ (find_struct user_type all_structs = None →
     find_enum user_type all_enums = None →
     validate_type depth v type_def all_structs all_enums is_optional
     = Raise (UnknownUserType user_type)).
Proof.
  intros Hv Hvar.
  rewrite (validate_type_user _ _ _ _ _ user_type) by done.
  split_and!.
  - intros struct_def -> Htruthy. simpl. by rewrite Htruthy.
  - intros enum_def -> -> Htruthy. simpl. rewrite Htruthy.
    split; [done|]. apply validate_enum_Ok.
  - by intros -> ->.
Qed.

(** A name that is a struct and an enum at once is validated as a struct;
    an enum name admits its values; an unknown name is a schema error. *)
Lemma validate_type_user_defined_example :
  validate_type 1 (VStr "nook") (t_user "Platform") clash_structs platform_enums false
  = Raise (StructExpectedDict "Platform" "str")
  ∧ validate_type 1 (VStr "nook") (t_user "Platform") ∅ platform_enums false = Ok
  ∧ validate_type 1 (VStr "nook") (t_user "Platform") ∅ ∅ false
    = Raise (UnknownUserType "Platform").
Proof.
  split_and!.
  - destruct (validate_type_user_defined 1 clash_structs platform_enums
                (VStr "nook") (t_user "Platform") "Platform" false
                eq_refl eq_refl) as (Hstruct & _ & _).
    rewrite (Hstruct (MkStruct None (Some []))) by (vm_compute; reflexivity).
    reflexivity.
  - destruct (validate_type_user_defined 1 ∅ platform_enums
                (VStr "nook") (t_user "Platform") "Platform" false
                eq_refl eq_refl) as (_ & Henum & _).
    destruct (Henum (MkEnum (Some [MkEnumValue "kindle"; MkEnumValue "nook"])))
      as [_ Hiff]; [vm_compute; reflexivity ..|].
    apply Hiff. exists "nook". split; [reflexivity|]. simpl. right. left.
  - destruct (validate_type_user_defined 1 ∅ ∅
                (VStr "nook") (t_user "Platform") "Platform" false
                eq_refl eq_refl) as (_ & _ & Hunknown).
    apply Hunknown; vm_compute; reflexivity.
Defined.

(** Enum membership is by exact match. *)
Example validate_enum_membership :
  validate_type 1 (VStr "kobo") (t_user "Platform") ∅ platform_enums false
  = Raise (InvalidEnumValue "Platform" "kobo" ["kindle"; "nook"])
  ∧ validate_type 1 (VInt 1) (t_user "Platform") ∅ platform_enums false
    = Raise (EnumExpectedString "Platform" "int").
Proof. split; vm_compute; reflexivity. Qed.

(** C2: for a dict value, [validate_struct] goes through every field of the
    resolved list.  It succeeds exactly when every field is accepted: an
    absent key or a [None] under the key needs the field to be optional,
    anything else has to validate against the field's type.  At the first
    field that is not accepted, an absent key of a required field raises the
    missing-field error and a [None] under a required field raises the
    cannot-be-None error.  Items under keys that no field declares are never
    read: with or without them the outcome is the same. *)
Theorem validate_struct_checks_resolved_fields
    (depth : nat) (all_structs : gmap string StructDef)
    (all_enums : gmap string EnumDef) (items : list (key * value))
    (struct_name : string) (struct_def : StructDef) (resolved : list FieldDef) :
  get_struct_fields depth struct_name all_structs = Some resolved →
  (validate_struct depth (VDict items) struct_name struct_def all_structs all_enums
   = Ok
   ↔ Forall (field_accepted depth items all_structs all_enums) resolved)
  ∧ (∀ pre field post,
       resolved = pre ++ field :: post →
       Forall (field_accepted depth items all_structs all_enums) pre →
       default false (optional field) = false →
       (dict_get items (name field) = None →
          validate_struct depth (VDict items) struct_name struct_def
            all_structs all_enums
          = Raise (MissingRequiredField (name field) struct_name))
       ∧ (dict_get items (name field) = Some VNone →
          validate_struct depth (VDict items) struct_name struct_def
            all_structs all_enums
          = Raise (FieldCannotBeNone (name field) struct_name)))
  ∧ (∀ items1 items2 k x,
       items = items1 ++ items2 →
       (∀ field, field ∈ resolved → key_is k (name field) = false) →
       validate_struct depth (VDict (items1 ++ (k, x) :: items2)) struct_name
         struct_def all_structs all_enums
       = validate_struct depth (VDict items) struct_name struct_def
           all_structs all_enums).
Proof.
  intros Hres. unfold validate_struct, validate_struct_with. rewrite Hres.
  split_and!.
  - apply validate_fields_Ok.
  - intros pre field post -> Hpre Hreq.
    rewrite validate_fields_app by done. simpl.
    unfold validate_field. rewrite dict_case_get, Hreq. simpl.
    split; by intros ->.
  - intros items1 items2 k x -> Hextra.
    apply validate_fields_ext. intros field Hin.
    apply dict_get_extra. by apply Hextra.
Qed.

(** [test_validate_struct_optional_field] and
    [test_validate_struct_missing_required_field], a [None] under a required
    field, and a value with a key the struct does not declare. *)
Lemma validate_struct_checks_resolved_fields_example :
  validate_struct 1 (VDict [(KStr "id", VStr "123")]) "User" user_def
    user_structs ∅ = Ok
  ∧ validate_struct 1 (VDict []) "User" user_def user_structs ∅
    = Raise (MissingRequiredField "id" "User")
  ∧ validate_struct 1 (VDict [(KStr "id", VNone)]) "User" user_def
      user_structs ∅
    = Raise (FieldCannotBeNone "id" "User")
  ∧ validate_struct 1 (VDict [(KStr "id", VStr "123"); (KStr "extra", VInt 1)])
      "User" user_def user_structs ∅
    = validate_struct 1 (VDict [(KStr "id", VStr "123")]) "User" user_def
        user_structs ∅.
Proof.
  assert (get_struct_fields 1 "User" user_structs = Some [f_uid; f_email])
    as Hres by (vm_compute; reflexivity).
  split_and!.
  - apply (validate_struct_checks_resolved_fields 1 user_structs ∅
             [(KStr "id", VStr "123")] "User" user_def _ Hres).
    repeat (apply Forall_cons_2 || apply Forall_nil_2); vm_compute; reflexivity.
  - destruct (validate_struct_checks_resolved_fields 1 user_structs ∅
                [] "User" user_def _ Hres) as (_ & Hfirst & _).
    destruct (Hfirst [] f_uid [f_email] eq_refl (Forall_nil_2 _) eq_refl)
      as [Hmissing _].
    exact (Hmissing eq_refl).
  - destruct (validate_struct_checks_resolved_fields 1 user_structs ∅
                [(KStr "id", VNone)] "User" user_def _ Hres) as (_ & Hfirst & _).
    destruct (Hfirst [] f_uid [f_email] eq_refl (Forall_nil_2 _) eq_refl)
      as [_ Hnone].
    exact (Hnone eq_refl).
  - destruct (validate_struct_checks_resolved_fields 1 user_structs ∅
                [(KStr "id", VStr "123")] "User" user_def _ Hres)
      as (_ & _ & Hextra).
    apply (Hextra [(KStr "id", VStr "123")] [] (KStr "extra") (VInt 1) eq_refl).
    intros field Hin.
    apply elem_of_cons in Hin as [->|Hin]; [reflexivity|].
    apply elem_of_cons in Hin as [->|Hin]; [reflexivity|].
    by apply elem_of_nil in Hin.
Defined.

(** [test_validate_struct_with_extends]: the parent's required field is
    checked as well. *)
Example validate_struct_with_extends :
  let strict := λ fd, MkField (name fd) (type fd) (Some false) in
  let structs : gmap string StructDef :=
    <["Base" := MkStruct None (Some [strict f_id])]>
    (<["User" := MkStruct (Some "Base") (Some [strict f_name])]> ∅) in
  validate_type 2 (VDict [(KStr "id", VStr "123"); (KStr "name", VStr "Alice")])
    (t_user "User") structs ∅ false = Ok
  ∧ validate_type 2 (VDict [(KStr "name", VStr "Alice")])
      (t_user "User") structs ∅ false
    = Raise (MissingRequiredField "id" "User").
Proof. split; vm_compute; reflexivity. Qed.

(** A nested failure carries the field it was found under. *)
Example validate_struct_field_failure :
  validate_type 1 (VDict [(KStr "id", VInt 7)]) (t_user "User") user_structs ∅ false
  = Raise (FieldFailed "id" "User" (ExpectedType "string" "int")).
Proof. vm_compute. reflexivity. Qed.

(** An empty dict registered under a name counts as no definition at all,
    for the resolver and for the dispatch on user-defined names. *)
Example empty_definition_is_missing :
  let structs : gmap string StructDef := <["Empty" := MkStruct None None]> ∅ in
  get_struct_fields 1 "Empty" structs = Some []
  ∧ validate_type 1 (VDict []) (t_user "Empty") structs ∅ false
    = Raise (UnknownUserType "Empty").
Proof. split; vm_compute; reflexivity. Qed.

(** The exception classes the test-suite matches on. *)
Example exception_classes :
  class_of (MapKeyNotString "int") = TypeError
  ∧ class_of (ExpectedType "list" "str") = TypeError
  ∧ class_of (MapValueFailed "a" (ExpectedType "int" "str")) = ValueError
  ∧ class_of (ArrayElementFailed 1 (ExpectedType "string" "int")) = ValueError
  ∧ class_of (MissingRequiredField "id" "User") = ValueError
  ∧ class_of ValueCannotBeNone = ValueError.
Proof. repeat split. Qed.

(** ** Further properties of the resolver *)

Lemma get_struct_fields_step depth struct_name all_structs struct_def parent_fields :
  find_struct struct_name all_structs = Some struct_def →
  struct_truthy struct_def = true →
  resolve_parent depth struct_def all_structs = Some parent_fields →
  get_struct_fields (S depth) struct_name all_structs
  = Some (merge_fields parent_fields (default [] (fields struct_def))).
Proof.
  intros Hfind Htruthy Hparent.
  rewrite get_struct_fields_unfold, Hfind. simpl.
  by rewrite Htruthy, Hparent.
Qed.

Lemma field_named_None n (l : list FieldDef) :
  field_named n l = None ↔ n ∉ name <$> l.
Proof.
  induction l as [|f l IH]; simpl.
  - split; [intros _ Hin; by apply elem_of_nil in Hin|done].
  - rewrite not_elem_of_cons.
    destruct (String.eqb_spec (name f) n) as [Heq|Hne].
    + split; [done|]. intros [Hn _]. by destruct Hn.
    + rewrite IH. split; [by split|tauto].
Qed.

Lemma field_named_app n (l k : list FieldDef) :
  field_named n (l ++ k)
  = match field_named n l with
    | Some f => Some f
    | None => field_named n k
    end.
Proof.
  induction l as [|f l IH]; [done|].
  simpl. by destruct (String.eqb (name f) n).
Qed.

Lemma merge_field_override (acc : list FieldDef) (field : FieldDef) :
  merge_field acc field
  = if bool_decide (name field ∈ name <$> acc) then override_first acc field
    else acc ++ [field].
Proof.
  unfold merge_field.
  destruct (list_find _ acc) as [[i g]|] eqn:E.
  - rewrite bool_decide_eq_true_2.
    + symmetry. by eapply override_first_insert.
    + apply list_find_Some in E as (Hi & Hg & _).
      apply list_elem_of_fmap. exists g. split; [done|].
      by eapply list_elem_of_lookup_2.
  - apply list_find_name_None in E. by rewrite bool_decide_eq_false_2.
Qed.

Lemma field_named_override n (acc : list FieldDef) (field : FieldDef) :
  name field ∈ name <$> acc →
  field_named n (override_first acc field)
  = if String.eqb (name field) n then Some field else field_named n acc.
Proof.
  induction acc as [|f acc IH]; intros Hin; [by apply elem_of_nil in Hin|].
  simpl in *.
  destruct (String.eqb_spec (name f) (name field)) as [Heq|Hne]; simpl.
  - rewrite Heq. by destruct (String.eqb (name field) n).
  - apply elem_of_cons in Hin as [Hin|Hin]; [congruence|].
    rewrite IH by done.
    destruct (String.eqb_spec (name f) n) as [Hfn|_]; [|done].
    destruct (String.eqb_spec (name field) n) as [Hgn|_]; [congruence|done].
Qed.

Lemma field_named_merge_field n (acc : list FieldDef) (field : FieldDef) :
  field_named n (merge_field acc field)
  = if String.eqb (name field) n then Some field else field_named n acc.
Proof.
  rewrite merge_field_override. case_bool_decide as Hin.
  - by apply field_named_override.
  - rewrite field_named_app. simpl.
    destruct (String.eqb_spec (name field) n) as [Heq|Hne].
    + apply field_named_None in Hin. rewrite Heq in Hin. by rewrite Hin.
    + by destruct (field_named n acc).
Qed.

Lemma field_named_merge_fields n (own acc : list FieldDef) :
  field_named n (merge_fields acc own)
  = match field_named n (rev own) with
    | Some f => Some f
    | None => field_named n acc
    end.
Proof.
  revert acc. induction own as [|field own IH]; intros acc; [done|].
  unfold merge_fields. cbn [fold_left]. fold (merge_fields (merge_field acc field) own).
  rewrite IH, field_named_merge_field. simpl. rewrite field_named_app. simpl.
  destruct (field_named n (rev own)); [done|].
  by destruct (String.eqb (name field) n).
Qed.

Lemma merge_field_lookup_other (acc : list FieldDef) (field f : FieldDef) i :
  acc !! i = Some f → name f ≠ name field →
  merge_field acc field !! i = Some f.
Proof.
  intros Hi Hne. unfold merge_field.
  destruct (list_find _ acc) as [[j g]|] eqn:E.
  - apply list_find_Some in E as (Hj & Hg & _).
    rewrite list_lookup_insert_ne; [done|].
    intros ->. congruence.
  - by apply lookup_app_l_Some.
Qed.

Lemma merge_fields_lookup_other (own acc : list FieldDef) (f : FieldDef) i :
  acc !! i = Some f → name f ∉ name <$> own →
  merge_fields acc own !! i = Some f.
Proof.
  revert acc. induction own as [|field own IH]; intros acc Hi Hfresh; [done|].
  rewrite fmap_cons, not_elem_of_cons in Hfresh. destruct Hfresh as [Hne Hfresh].
  unfold merge_fields. cbn [fold_left]. fold (merge_fields (merge_field acc field) own).
  apply IH; [|done]. by apply merge_field_lookup_other.
Qed.

Lemma merge_fields_name_set (own acc : list FieldDef) :
  list_to_set (name <$> merge_fields acc own)
  =@{gset string} list_to_set (name <$> acc) ∪ list_to_set (name <$> own).
Proof.
  revert acc. induction own as [|field own IH]; intros acc.
  { simpl. set_solver. }
  unfold merge_fields. cbn [fold_left]. fold (merge_fields (merge_field acc field) own).
  rewrite IH, merge_field_names. case_bool_decide as Hin.
  - rewrite fmap_cons, list_to_set_cons.
    apply (elem_of_list_to_set (C := gset string)) in Hin. set_solver.
  - rewrite list_to_set_snoc_L, fmap_cons, list_to_set_cons. set_solver.
Qed.

Lemma merge_fields_length_le (own acc : list FieldDef) :
  (length acc ≤ length (merge_fields acc own) ≤ length acc + length own)%nat.
Proof.
  revert acc. induction own as [|field own IH]; intros acc.
  { simpl. lia. }
  unfold merge_fields. cbn [fold_left]. fold (merge_fields (merge_field acc field) own).
  specialize (IH (merge_field acc field)).
  assert (length acc ≤ length (merge_field acc field) ≤ S (length acc))%nat.
  { unfold merge_field. destruct (list_find _ acc) as [[j g]|].
    - rewrite length_insert. lia.
    - rewrite length_app. simpl. lia. }
  simpl. lia.
Qed.

Lemma field_named_Some n (l : list FieldDef) (f : FieldDef) :
  field_named n l = Some f → f ∈ l ∧ name f = n.
Proof.
  induction l as [|g l IH]; [done|]. simpl.
  destruct (String.eqb_spec (name g) n) as [Heq|_].
  - intros [= <-]. split; [left|done].
  - intros [Hin Hn]%IH. split; [by right|done].
Qed.

Lemma NoDup_names_eq (l : list FieldDef) (f g : FieldDef) :
  NoDup (name <$> l) → f ∈ l → g ∈ l → name f = name g → f = g.
Proof.
  induction l as [|h l IH]; intros Hnd Hf Hg Hname.
  { by apply elem_of_nil in Hf. }
  rewrite fmap_cons in Hnd. apply NoDup_cons in Hnd as [Hh Hnd].
  apply elem_of_cons in Hf as [->|Hf]; apply elem_of_cons in Hg as [->|Hg].
  - done.
  - destruct Hh. rewrite Hname. by apply list_elem_of_fmap_2.
  - destruct Hh. rewrite <- Hname. by apply list_elem_of_fmap_2.
  - by apply IH.
Qed.

(** C10: when the [extends] chain of a struct is finite, [get_struct_fields]
    returns for every large enough depth, always the same list, and no field
    name occurs twice in it, whatever the structs on the chain declare.  For
    a name the struct itself declares, once or several times, the one entry
    of the resolved list under that name is the struct's last declaration of
    it: a later declaration replaces the earlier entry instead of adding a
    second one. *)
Theorem get_struct_fields_names_unique
    (all_structs : gmap string StructDef) (struct_name : string) :
  chain_ends all_structs struct_name →
  ∃ (depth : nat) (resolved : list FieldDef),
    (∀ depth', (depth ≤ depth')%nat →
       get_struct_fields depth' struct_name all_structs = Some resolved)
    ∧ NoDup (name <$> resolved)
    ∧ (∀ struct_def n field,
         find_struct struct_name all_structs = Some struct_def →
         struct_truthy struct_def = true →
         field_named n (rev (default [] (fields struct_def))) = Some field →
         field_named n resolved = Some field
         ∧ ∀ g, g ∈ resolved → name g = n → g = field).
Proof.
  intros (depth & resolved & Hres)%chain_ends_returns.
  pose proof (get_struct_fields_NoDup _ _ _ _ Hres) as Hnd.
  exists depth, resolved. split_and!.
  - intros depth' Hle. by eapply get_struct_fields_mono.
  - done.
  - intros struct_def n field Hfind Htruthy Hlast.
    assert (field_named n resolved = Some field) as Hnamed.
    { destruct depth as [|depth]; [done|].
      rewrite get_struct_fields_unfold, Hfind in Hres. simpl in Hres.
      rewrite Htruthy in Hres.
      destruct (resolve_parent depth struct_def all_structs) as [pf|];
        [|done].
      injection Hres as <-. by rewrite field_named_merge_fields, Hlast. }
    split; [done|]. intros g Hg Hname.
    apply field_named_Some in Hnamed as [Hin Hn].
    apply (NoDup_names_eq resolved); [done..|congruence].
Qed.

(** [Pair] declares [id], [name] and [id] again: the resolved list has one
    entry per name, and [id] is the second declaration. *)
Lemma get_struct_fields_names_unique_example :
  ∃ resolved : list FieldDef,
    get_struct_fields 1 "Pair" twice_structs = Some resolved
    ∧ NoDup (name <$> resolved)
    ∧ field_named "id" resolved = Some f_id_int.
Proof.
  destruct (get_struct_fields_names_unique twice_structs "Pair")
    as (depth & resolved & Hall & Hnd & Hlast).
  { apply chain_root. vm_compute. reflexivity. }
  exists resolved. split_and!.
  - assert (get_struct_fields 1 "Pair" twice_structs = Some [f_id_int; f_name])
      as Hone by (vm_compute; reflexivity).
    pose proof (get_struct_fields_mono 1 (depth `max` 1) "Pair" twice_structs
                  _ (Nat.le_max_r _ _) Hone) as Hmax.
    specialize (Hall (depth `max` 1)%nat (Nat.le_max_l _ _)).
    rewrite Hone. congruence.
  - exact Hnd.
  - apply (Hlast (MkStruct None (Some [f_id; f_name; f_id_int])) "id" f_id_int);
      vm_compute; reflexivity.
Defined.

(** X1: the resolver returns exactly when the [extends] chain that starts
    at the name is finite; on a chain that runs into a cycle no depth is
    enough. *)
Theorem get_struct_fields_returns_iff_chain_ends
    (all_structs : gmap string StructDef) (struct_name : string) :
  ((∃ depth resolved,
      get_struct_fields depth struct_name all_structs = Some resolved)
   ↔ chain_ends all_structs struct_name)
  ∧ (¬ chain_ends all_structs struct_name →
     ∀ depth, get_struct_fields depth struct_name all_structs = None).
Proof.
  assert (∀ depth n resolved,
            get_struct_fields depth n all_structs = Some resolved →
            chain_ends all_structs n) as Hret.
  { induction depth as [|depth IH]; intros n resolved; [done|].
    rewrite get_struct_fields_unfold.
    destruct (get_truthy struct_truthy (find_struct n all_structs))
      as [sd|] eqn:Hsd.
    - unfold resolve_parent.
      destruct (get_truthy str_truthy (extends sd)) as [parent|] eqn:Hp.
      + destruct (get_struct_fields depth parent all_structs) as [pf|] eqn:E;
          [|done].
        intros _. apply (chain_step _ n parent).
        * unfold parent_of. by rewrite Hsd.
        * by eapply IH.
      + intros _. apply chain_root. unfold parent_of. by rewrite Hsd.
    - intros _. apply chain_root. unfold parent_of. by rewrite Hsd. }
  split.
  - split; [intros (depth & resolved & H); by eapply Hret|].
    apply chain_ends_returns.
  - intros Hcyc depth.
    destruct (get_struct_fields depth struct_name all_structs) eqn:E; [|done].
    destruct Hcyc. by eapply Hret.
Qed.

Lemma cyclic_chain_never_ends (n : string) :
  chain_ends cyclic_structs n → n ≠ "Ping" ∧ n ≠ "Pong".
Proof.
  induction 1 as [n Hp|n parent Hp _ [IH1 IH2]].
  - split; intros ->; vm_compute in Hp; discriminate.
  - split; intros ->; vm_compute in Hp; simplify_eq.
Qed.

(** Two structs that extend each other are never resolved. *)
Lemma get_struct_fields_cycle :
  get_struct_fields 1000 "Ping" cyclic_structs = None.
Proof.
  apply (get_struct_fields_returns_iff_chain_ends cyclic_structs "Ping").
  intros [Hne _]%cyclic_chain_never_ends. done.
Defined.

(** X2: in the resolved list a field name designates the last declaration
    of that name by the struct itself, and the parent's resolved entry when
    the struct does not declare the name. *)
Theorem get_struct_fields_last_declaration_wins
    (depth : nat) (struct_name : string) (all_structs : gmap string StructDef)
    (struct_def : StructDef) (parent_fields : list FieldDef) (n : string) :
  find_struct struct_name all_structs = Some struct_def →
  struct_truthy struct_def = true →
  resolve_parent depth struct_def all_structs = Some parent_fields →
  ∃ resolved,
    get_struct_fields (S depth) struct_name all_structs = Some resolved
    ∧ field_named n resolved
      = match field_named n (rev (default [] (fields struct_def))) with
        | Some f => Some f
        | None => field_named n parent_fields
        end.
Proof.
  intros Hfind Htruthy Hparent. eexists. split.
  - by apply get_struct_fields_step.
  - apply field_named_merge_fields.
Qed.

Lemma get_struct_fields_last_declaration_wins_example :
  ∃ resolved,
    get_struct_fields 1 "Pair" twice_structs = Some resolved
    ∧ field_named "id" resolved = Some f_id_int.
Proof.
  destruct (get_struct_fields_last_declaration_wins 0 "Pair" twice_structs
              (MkStruct None (Some [f_id; f_name; f_id_int])) [] "id")
    as (resolved & Hres & Hnamed); [vm_compute; reflexivity ..|].
  exists resolved. split; [exact Hres|]. rewrite Hnamed. reflexivity.
Defined.

(** X3: an inherited field whose name the struct does not declare stays in
    its slot, unchanged. *)
Theorem get_struct_fields_keeps_inherited
    (depth : nat) (struct_name : string) (all_structs : gmap string StructDef)
    (struct_def : StructDef) (parent_fields : list FieldDef)
    (i : nat) (f : FieldDef) :
  find_struct struct_name all_structs = Some struct_def →
  struct_truthy struct_def = true →
  resolve_parent depth struct_def all_structs = Some parent_fields →
  parent_fields !! i = Some f →
  name f ∉ name <$> default [] (fields struct_def) →
  ∃ resolved,
    get_struct_fields (S depth) struct_name all_structs = Some resolved
    ∧ resolved !! i = Some f.
Proof.
  intros Hfind Htruthy Hparent Hi Hfresh. eexists. split.
  - by apply get_struct_fields_step.
  - by apply merge_fields_lookup_other.
Qed.

Lemma get_struct_fields_keeps_inherited_example :
  ∃ resolved,
    get_struct_fields 2 "User" extends_structs = Some resolved
    ∧ resolved !! 0%nat = Some f_id.
Proof.
  apply (get_struct_fields_keeps_inherited 1 "User" extends_structs
           (MkStruct (Some "Base") (Some [f_name])) [f_id] 0 f_id);
    try (vm_compute; reflexivity).
  simpl. intros Hin. apply list_elem_of_singleton in Hin. discriminate Hin.
Defined.

(** X4: when no declared name repeats and none is inherited, the resolved
    list is the parent's resolved list followed by the declared fields. *)
Theorem get_struct_fields_without_clash
    (depth : nat) (struct_name : string) (all_structs : gmap string StructDef)
    (struct_def : StructDef) (parent_fields : list FieldDef) :
  find_struct struct_name all_structs = Some struct_def →
  struct_truthy struct_def = true →
  resolve_parent depth struct_def all_structs = Some parent_fields →
  NoDup (name <$> parent_fields ++ default [] (fields struct_def)) →
  get_struct_fields (S depth) struct_name all_structs
  = Some (parent_fields ++ default [] (fields struct_def)).
Proof.
  intros Hfind Htruthy Hparent Hnd.
  rewrite (get_struct_fields_step _ _ _ struct_def parent_fields) by done.
  f_equal. by apply merge_fields_fresh.
Qed.

Lemma get_struct_fields_without_clash_example :
  get_struct_fields 2 "User" extends_structs = Some ([f_id] ++ [f_name]).
Proof.
  apply (get_struct_fields_without_clash 1 "User" extends_structs
           (MkStruct (Some "Base") (Some [f_name])) [f_id]);
    try (vm_compute; reflexivity).
  vm_compute. apply NoDup_cons_2; [|apply NoDup_singleton].
  intros Hin. apply list_elem_of_singleton in Hin. discriminate Hin.
Defined.

(** X5: the names of the resolved list are the inherited names together
    with the declared names, and its length lies between the number of
    inherited fields and that number plus the number of declarations. *)
Theorem get_struct_fields_names_and_length
    (depth : nat) (struct_name : string) (all_structs : gmap string StructDef)
    (struct_def : StructDef) (parent_fields : list FieldDef) :
  find_struct struct_name all_structs = Some struct_def →
  struct_truthy struct_def = true →
  resolve_parent depth struct_def all_structs = Some parent_fields →
  ∃ resolved,
    get_struct_fields (S depth) struct_name all_structs = Some resolved
    ∧ list_to_set (name <$> resolved)
      =@{gset string} list_to_set (name <$> parent_fields)
                      ∪ list_to_set (name <$> default [] (fields struct_def))
    ∧ (length parent_fields ≤ length resolved
       ≤ length parent_fields + length (default [] (fields struct_def)))%nat.
Proof.
  intros Hfind Htruthy Hparent. eexists. split_and!.
  - by apply get_struct_fields_step.
  - apply merge_fields_name_set.
  - apply merge_fields_length_le.
  - apply merge_fields_length_le.
Qed.

Lemma get_struct_fields_names_and_length_example :
  ∃ resolved,
    get_struct_fields 2 "User" override_structs = Some resolved
    ∧ list_to_set (name <$> resolved)
      =@{gset string} list_to_set (name <$> [f_id])
                      ∪ list_to_set (name <$> [f_id_int; f_name])
    ∧ (length [f_id] ≤ length resolved
       ≤ length [f_id] + length [f_id_int; f_name])%nat.
Proof.
  apply (get_struct_fields_names_and_length 1 "User" override_structs
           (MkStruct (Some "Base") (Some [f_id_int; f_name])) [f_id]);
    vm_compute; reflexivity.
Defined.

(** ** Further properties of the validator *)

Lemma validate_elements_Ok (element_validator : value → result) i elems :
  validate_elements element_validator i elems = Ok
  ↔ Forall (λ e, element_validator e = Ok) elems.
Proof.
  revert i. induction elems as [|x elems IH]; intros i; simpl.
  { split; [constructor|done]. }
  by rewrite seq_Ok, try_except_Ok, Forall_cons, IH.
Qed.

Lemma validate_elements_app (element_validator : value → result) i pre rest :
  Forall (λ e, element_validator e = Ok) pre →
  validate_elements element_validator i (pre ++ rest)
  = validate_elements element_validator (i + length pre) rest.
Proof.
  intros Hpre. revert i.
  induction Hpre as [|x pre Hx _ IH]; intros i; simpl.
  { by rewrite Nat.add_0_r. }
  rewrite Hx. simpl. rewrite IH. f_equal. lia.
Qed.

(** X6: [validate_array] succeeds exactly on a list all of whose elements
    pass the element validator; a value that is not a list raises the
    expected-list error; and the error of the first failing element is
    raised wrapped with the zero-based index of that element. *)
Theorem validate_array_elements
    (element_validator : value → result) (v : value) :
  (validate_array v element_validator = Ok
   ↔ ∃ elems, v = VList elems ∧ Forall (λ e, element_validator e = Ok) elems)
  ∧ (isinstance v Clist = false →
     validate_array v element_validator
     = Raise (ExpectedType "list" (type_name v)))
  ∧ (∀ pre x post e,
       v = VList (pre ++ x :: post) →
       Forall (λ y, element_validator y = Ok) pre →
       element_validator x = Raise e →
       validate_array v element_validator
       = Raise (ArrayElementFailed (length pre) e)).
Proof.
  split_and!.
  - destruct v; simpl; try (split; [done|intros (? & [=] & _)]).
    rewrite validate_elements_Ok. split; [eauto|].
    by intros (? & [= <-] & ?).
  - by destruct v.
  - intros pre x post e -> Hpre Hx. simpl.
    rewrite validate_elements_app by done. simpl. by rewrite Hx.
Qed.

(** [test_validate_array_element_validation_fails] and
    [test_validate_array_wrong_type]. *)
Lemma validate_array_elements_example :
  validate_array (VList [VStr "a"; VInt 123; VStr "c"]) validate_string
  = Raise (ArrayElementFailed 1 (ExpectedType "string" "int"))
  ∧ validate_array (VStr "not a list") validate_string
    = Raise (ExpectedType "list" "str").
Proof.
  destruct (validate_array_elements validate_string
              (VList [VStr "a"; VInt 123; VStr "c"])) as (_ & _ & Hfirst).
  destruct (validate_array_elements validate_string (VStr "not a list"))
    as (_ & Hshape & _).
  split.
  - apply (Hfirst [VStr "a"] (VInt 123) [VStr "c"] _ eq_refl); [|reflexivity].
    apply Forall_cons_2; [reflexivity|apply Forall_nil_2].
  - apply Hshape. reflexivity.
Defined.

(** X7: when the first field that is not accepted is present with a value
    other than [None], [validate_struct] raises the error of validating that
    value against the field's type, wrapped with the field name and the
    struct name. *)
Theorem validate_struct_wraps_field_failure
    (depth : nat) (all_structs : gmap string StructDef)
    (all_enums : gmap string EnumDef) (items : list (key * value))
    (struct_name : string) (struct_def : StructDef)
    (pre post : list FieldDef) (field : FieldDef) (field_value : value)
    (e : exn) :
  get_struct_fields depth struct_name all_structs = Some (pre ++ field :: post) →
  Forall (field_accepted depth items all_structs all_enums) pre →
  dict_get items (name field) = Some field_value →
  is_None field_value = false →
  validate_type depth field_value (type field) all_structs all_enums
    (default false (optional field)) = Raise e →
  validate_struct depth (VDict items) struct_name struct_def all_structs all_enums
  = Raise (FieldFailed (name field) struct_name e).
Proof.
  intros Hres Hpre Hget Hv He.
  unfold validate_struct, validate_struct_with. rewrite Hres.
  rewrite validate_fields_app by done. simpl.
  unfold validate_field. rewrite dict_case_get, Hget.
  destruct field_value; try discriminate Hv; by rewrite He.
Qed.

Lemma validate_struct_wraps_field_failure_example :
  validate_struct 1 (VDict [(KStr "id", VStr "1"); (KStr "email", VInt 7)])
    "User" user_def user_structs ∅
  = Raise (FieldFailed "email" "User" (ExpectedType "string" "int")).
Proof.
  apply (validate_struct_wraps_field_failure 1 user_structs ∅ _ "User" user_def
           [f_uid] [] f_email (VInt 7)); try (vm_compute; reflexivity).
  apply Forall_cons_2; [vm_compute; reflexivity|apply Forall_nil_2].
Defined.

(** X8: [is_optional] is consulted for a [None] value only.  On any other
    value the outcome of [validate_type] is the same for both settings, and
    [validate_struct] would decide the same if it did not forward the
    field's optionality to the validation of the field value. *)
Theorem is_optional_only_matters_for_None
    (depth : nat) (all_structs : gmap string StructDef)
    (all_enums : gmap string EnumDef) (v : value) (type_def : TypeDef)
    (is_optional is_optional' : bool) :
  is_None v = false →
  validate_type depth v type_def all_structs all_enums is_optional
  = validate_type depth v type_def all_structs all_enums is_optional'
  ∧ ∀ items struct_name resolved,
      validate_fields
        (λ x t o, validate_type depth x t all_structs all_enums o)
        items struct_name resolved
      = validate_fields
          (λ x t _, validate_type depth x t all_structs all_enums false)
          items struct_name resolved.
Proof.
  intros Hv. split.
  - by destruct v.
  - intros items struct_name resolved.
    induction resolved as [|field resolved IH]; [done|].
    simpl. rewrite IH. f_equal.
    unfold validate_field. rewrite !dict_case_get.
    destruct (dict_get items (name field)) as [[]|]; done.
Qed.

Lemma is_optional_only_matters_for_None_example :
  validate_type 0 (VInt 1) (t_builtin "string") ∅ ∅ true
  = validate_type 0 (VInt 1) (t_builtin "string") ∅ ∅ false
  ∧ validate_fields (λ x t o, validate_type 0 x t ∅ ∅ o)
      [(KStr "email", VInt 7)] "User" [f_email]
    = validate_fields (λ x t _, validate_type 0 x t ∅ ∅ false)
        [(KStr "email", VInt 7)] "User" [f_email].
Proof.
  destruct (is_optional_only_matters_for_None 0 ∅ ∅ (VInt 1)
              (t_builtin "string") true false eq_refl) as [Hsame Hfields].
  split; [exact Hsame|apply Hfields].
Defined.

(** X9: when a struct declares none of the names it inherits, every dict
    that validates as the struct validates as its parent too. *)
Theorem validate_struct_child_valid_as_parent
    (depth : nat) (all_structs : gmap string StructDef)
    (all_enums : gmap string EnumDef) (items : list (key * value))
    (child parent : string) (child_def parent_def : StructDef)
    (parent_fields : list FieldDef) :
  find_struct child all_structs = Some child_def →
  extends child_def = Some parent →
  str_truthy parent = true →
  get_struct_fields depth parent all_structs = Some parent_fields →
  (∀ f, f ∈ parent_fields → name f ∉ name <$> default [] (fields child_def)) →
  validate_struct (S depth) (VDict items) child child_def all_structs all_enums
  = Ok →
  validate_struct (S depth) (VDict items) parent parent_def all_structs all_enums
  = Ok.
Proof.
  intros Hfind Hext Hparent Hpf Hfresh.
  assert (struct_truthy child_def = true) as Htruthy.
  { destruct child_def as [ext fs]. simpl in Hext. by subst ext. }
  assert (resolve_parent depth child_def all_structs = Some parent_fields)
    as Hres.
  { unfold resolve_parent. rewrite Hext. simpl. by rewrite Hparent. }
  unfold validate_struct, validate_struct_with.
  rewrite (get_struct_fields_step _ _ _ child_def parent_fields) by done.
  rewrite (get_struct_fields_mono depth (S depth) parent _ parent_fields)
    by (done || lia).
  rewrite !validate_fields_Ok, !Forall_forall.
  intros Hall f Hin. apply Hall.
  apply list_elem_of_lookup in Hin as [i Hi].
  apply list_elem_of_lookup. exists i.
  apply merge_fields_lookup_other; [done|].
  apply Hfresh. by eapply list_elem_of_lookup_2.
Qed.

Lemma validate_struct_child_valid_as_parent_example :
  validate_struct 2
    (VDict [(KStr "id", VStr "123"); (KStr "name", VStr "Alice")]) "Base"
    (MkStruct None (Some [f_id])) extends_structs ∅ = Ok.
Proof.
  apply (validate_struct_child_valid_as_parent 1 extends_structs ∅ _
           "User" "Base" (MkStruct (Some "Base") (Some [f_name])) _ [f_id]);
    try (vm_compute; reflexivity).
  intros f Hin. apply list_elem_of_singleton in Hin as ->.
  simpl. intros Hin. apply list_elem_of_singleton in Hin. discriminate Hin.
Defined.

(** X10: called with a struct name the schema does not have,
    [validate_struct] asks only for a dict: every dict is accepted, whatever
    its items, and every other value is refused. *)
Theorem validate_struct_unknown_name_accepts_dicts
    (depth : nat) (all_structs : gmap string StructDef)
    (all_enums : gmap string EnumDef) (v : value) (struct_name : string)
    (struct_def : StructDef) :
  find_struct struct_name all_structs = None →
  (validate_struct (S depth) v struct_name struct_def all_structs all_enums = Ok
   ↔ isinstance v Cdict = true)
  ∧ (isinstance v Cdict = false →
     validate_struct (S depth) v struct_name struct_def all_structs all_enums
     = Raise (StructExpectedDict struct_name (type_name v))).
Proof.
  intros Hfind. unfold validate_struct, validate_struct_with.
  rewrite get_struct_fields_unfold, Hfind. by destruct v.
Qed.

Lemma validate_struct_unknown_name_accepts_dicts_example :
  (validate_struct 1 (VDict [(KInt 1, VNone)]) "Ghost" user_def user_structs ∅
   = Ok ↔ isinstance (VDict [(KInt 1, VNone)]) Cdict = true)
  ∧ (isinstance (VDict [(KInt 1, VNone)]) Cdict = false →
     validate_struct 1 (VDict [(KInt 1, VNone)]) "Ghost" user_def user_structs ∅
     = Raise (StructExpectedDict "Ghost" (type_name (VDict [(KInt 1, VNone)])))).
Proof.
  apply (validate_struct_unknown_name_accepts_dicts 0 user_structs ∅
           (VDict [(KInt 1, VNone)]) "Ghost" user_def).
  vm_compute. reflexivity.
Defined.

(** X11: a type definition that passes none of the tests of the dispatch
    is refused for every value other than [None]: a [builtIn] of an unknown
    kind, an [array] or [mapValue] whose member type is the empty dict, a
    [userDefined] that is the empty string, and the empty dict itself. *)
Theorem validate_type_invalid_definition
    (depth : nat) (all_structs : gmap string StructDef)
    (all_enums : gmap string EnumDef) (v : value) (kind : string)
    (is_optional : bool) :
  is_None v = false →
  kind ∉ ["string"; "int"; "float"; "bool"] →
  validate_type depth v (t_builtin kind) all_structs all_enums is_optional
  = Raise (InvalidTypeDefinition (t_builtin kind))
  ∧ validate_type depth v (t_array t_empty) all_structs all_enums is_optional
    = Raise (InvalidTypeDefinition (t_array t_empty))
  ∧ validate_type depth v (t_map t_empty) all_structs all_enums is_optional
    = Raise (InvalidTypeDefinition (t_map t_empty))
  ∧ validate_type depth v (t_user EmptyString) all_structs all_enums is_optional
    = Raise (InvalidTypeDefinition (t_user EmptyString))
  ∧ validate_type depth v t_empty all_structs all_enums is_optional
    = Raise (InvalidTypeDefinition t_empty).
Proof.
  intros Hv Hkind. split_and!; try (by destruct v).
  rewrite validate_type_builtin by done.
  repeat case_bool_decide; subst; try done;
    exfalso; apply Hkind; set_solver.
Qed.

Lemma validate_type_invalid_definition_example :
  validate_type 0 (VInt 1) (t_builtin "double") ∅ ∅ false
  = Raise (InvalidTypeDefinition (t_builtin "double"))
  ∧ validate_type 0 (VInt 1) (t_array t_empty) ∅ ∅ false
    = Raise (InvalidTypeDefinition (t_array t_empty))
  ∧ validate_type 0 (VInt 1) (t_map t_empty) ∅ ∅ false
    = Raise (InvalidTypeDefinition (t_map t_empty))
  ∧ validate_type 0 (VInt 1) (t_user EmptyString) ∅ ∅ false
    = Raise (InvalidTypeDefinition (t_user EmptyString))
  ∧ validate_type 0 (VInt 1) t_empty ∅ ∅ false
    = Raise (InvalidTypeDefinition t_empty).
Proof.
  apply (validate_type_invalid_definition 0 ∅ ∅ (VInt 1) "double" false).
  - reflexivity.
  - intros Hin. repeat (apply elem_of_cons in Hin as [Hin|Hin]; [discriminate Hin|]).
    by apply elem_of_nil in Hin.
Defined.

(** X12: validation against one of the four builtin kinds either succeeds
    or raises the expected-kind error that names the kind asked for and the
    type of the value.  A list or a dict passes none of the four, and a
    string passes the kind [string] only. *)
Theorem validate_type_builtin_outcomes
    (depth : nat) (all_structs : gmap string StructDef)
    (all_enums : gmap string EnumDef) (v : value) (kind : string)
    (is_optional : bool) :
  is_None v = false →
  kind ∈ ["string"; "int"; "float"; "bool"] →
  (validate_type depth v (t_builtin kind) all_structs all_enums is_optional = Ok
   ∨ validate_type depth v (t_builtin kind) all_structs all_enums is_optional
     = Raise (ExpectedType kind (type_name v)))
  ∧ (isinstance v Clist || isinstance v Cdict = true →
     validate_type depth v (t_builtin kind) all_structs all_enums is_optional
     = Raise (ExpectedType kind (type_name v)))
  ∧ (isinstance v Cstr = true →
     (validate_type depth v (t_builtin kind) all_structs all_enums is_optional
      = Ok ↔ kind = "string")).
Proof.
  intros Hv Hkind. rewrite validate_type_builtin by done.
  repeat (apply elem_of_cons in Hkind as [->|Hkind]);
    [| | | |by apply elem_of_nil in Hkind];
    destruct v; try discriminate Hv; cbv; intuition congruence.
Qed.

Lemma validate_type_builtin_outcomes_example :
  (validate_type 0 (VList []) (t_builtin "float") ∅ ∅ false = Ok
   ∨ validate_type 0 (VList []) (t_builtin "float") ∅ ∅ false
     = Raise (ExpectedType "float" (type_name (VList []))))
  ∧ (isinstance (VList []) Clist || isinstance (VList []) Cdict = true →
     validate_type 0 (VList []) (t_builtin "float") ∅ ∅ false
     = Raise (ExpectedType "float" (type_name (VList []))))
  ∧ (isinstance (VList []) Cstr = true →
     (validate_type 0 (VList []) (t_builtin "float") ∅ ∅ false = Ok
      ↔ "float" = "string")).
Proof.
  apply (validate_type_builtin_outcomes 0 ∅ ∅ (VList []) "float" false).
  - reflexivity.
  - do 2 right. left.
Defined.

(** X13: whether a dict passes [validate_map] does not depend on the order
    of its items (the order only decides which error is raised). *)
Theorem validate_map_order_irrelevant
    (value_validator : value → result) (items items' : list (key * value)) :
  items ≡ₚ items' →
  (validate_map (VDict items) value_validator = Ok
   ↔ validate_map (VDict items') value_validator = Ok).
Proof.
  intros Hperm. simpl. rewrite !validate_items_Ok. by rewrite Hperm.
Qed.

Lemma validate_map_order_irrelevant_example :
  validate_map (VDict [(KStr "a", VInt 1); (KStr "b", VInt 2)]) validate_int = Ok
  ↔ validate_map (VDict [(KStr "b", VInt 2); (KStr "a", VInt 1)]) validate_int = Ok.
Proof.
  apply (validate_map_order_irrelevant validate_int). apply Permutation_swap.
Defined.

Lemma validate_type_builtin_variant depth all_structs all_enums v type_def kind
    is_optional :
  is_None v = false →
  variant_of type_def = RBuiltin kind →
  validate_type depth v type_def all_structs all_enums is_optional
  = if bool_decide (kind = "string") then validate_string v
    else if bool_decide (kind = "int") then validate_int v
    else if bool_decide (kind = "float") then validate_float v
    else validate_bool v.
Proof.
  intros Hv Hvar. unfold variant_of in Hvar.
  destruct v; try discriminate Hv; simpl;
    repeat case_bool_decide; simplify_eq; try done;
    destruct (get_truthy typedef_truthy (array type_def)); simplify_eq;
    destruct (get_truthy typedef_truthy (mapValue type_def)); simplify_eq;
    destruct (get_truthy str_truthy (userDefined type_def)); simplify_eq.
Qed.

Lemma validate_type_invalid_variant depth all_structs all_enums v type_def
    is_optional :
  is_None v = false →
  variant_of type_def = RInvalid →
  validate_type depth v type_def all_structs all_enums is_optional
  = Raise (InvalidTypeDefinition type_def).
Proof.
  intros Hv Hvar. unfold variant_of in Hvar.
  destruct v; try discriminate Hv; simpl;
    repeat case_bool_decide; simplify_eq;
    destruct (get_truthy typedef_truthy (array type_def)); simplify_eq;
    destruct (get_truthy typedef_truthy (mapValue type_def)); simplify_eq;
    destruct (get_truthy str_truthy (userDefined type_def)); simplify_eq; done.
Qed.

Lemma schema_free_variant type_def :
  schema_free type_def = true →
  match variant_of type_def with
  | RBuiltin _ | RInvalid => True
  | RArray member_type | RMap member_type => schema_free member_type = true
  | RUser _ => False
  end.
Proof.
  destruct type_def as [b a m u]. unfold variant_of. simpl.
  repeat case_bool_decide; try done.
  destruct a as [e|]; simpl; [destruct (typedef_truthy e); [done|]|];
    (destruct m as [x|]; simpl; [destruct (typedef_truthy x); [done|]|]);
    destruct (get_truthy str_truthy u); done.
Qed.

Lemma validate_elements_ext (f g : value → result) i elems :
  Forall (λ x, f x = g x) elems →
  validate_elements f i elems = validate_elements g i elems.
Proof.
  intros Hall. revert i.
  induction Hall as [|x elems Hx _ IH]; intros i; [done|].
  simpl. by rewrite Hx, IH.
Qed.

Lemma validate_items_ext (f g : value → result) items :
  Forall (λ item, f item.2 = g item.2) items →
  validate_items f items = validate_items g items.
Proof.
  induction 1 as [|[k x] items Hx _ IH]; [done|].
  simpl in *. destruct k; try done. by rewrite Hx, IH.
Qed.

(** X14: validation against a type definition that never leads to a
    user-defined name involves neither the struct table nor the enum table
    nor the resolver: the outcome is the same under every schema. *)
Theorem validate_type_schema_free
    (v : value) (type_def : TypeDef) (is_optional : bool)
    (depth depth' : nat) (all_structs all_structs' : gmap string StructDef)
    (all_enums all_enums' : gmap string EnumDef) :
  schema_free type_def = true →
  validate_type depth v type_def all_structs all_enums is_optional
  = validate_type depth' v type_def all_structs' all_enums' is_optional.
Proof.
  revert type_def is_optional.
  induction v as [|b|z|x|s|elems IH|items IH] using value_nested_ind;
    intros type_def is_optional Hfree; [done|..];
    apply schema_free_variant in Hfree;
    destruct (variant_of type_def) as [kind|et|vt|ut|] eqn:Hvar; try done;
    try (by rewrite !(validate_type_builtin_variant _ _ _ _ _ kind));
    try (by rewrite !validate_type_invalid_variant);
    try (by rewrite !(validate_type_array _ _ _ _ _ et));
    try (by rewrite !(validate_type_map _ _ _ _ _ vt)).
  - rewrite !(validate_type_array _ _ _ _ _ et) by done. simpl.
    apply validate_elements_ext.
    eapply Forall_impl; [exact IH|]. intros e He. by apply He.
  - rewrite !(validate_type_map _ _ _ _ _ vt) by done. simpl.
    apply validate_items_ext.
    eapply Forall_impl; [exact IH|]. intros item Hitem. by apply Hitem.
Qed.

Lemma validate_type_schema_free_example :
  validate_type 0 (VDict [(KStr "a", VList [VInt 1; VNone])])
    (t_map (t_array (t_builtin "int"))) ∅ ∅ false
  = validate_type 2 (VDict [(KStr "a", VList [VInt 1; VNone])])
      (t_map (t_array (t_builtin "int"))) user_structs platform_enums false.
Proof.
  apply (validate_type_schema_free _ (t_map (t_array (t_builtin "int")))).
  vm_compute. reflexivity.
Defined.
